(** * NocturneCompanion BLE test client: protocol layer

    A shallow embedding of [BLE_TEST_CLIENT.py] (class [NocturneTestClient])
    and of the Python library functions it calls, followed by the properties
    of its protocol layer.

    Modelling conventions.
    - A Python [str] is a list of Unicode code points ([pystr]); a [bytes] or
      [bytearray] value is a [list byte].
    - Python exceptions are modelled by their class ([exn]); a computation
      that may raise lives in the [result] monad, and [try]/[except] is a
      match on the raised class.
    - What the client writes on the console is kept as a list of structured
      print records ([out]), one per [print] call, holding the Python values
      that the call formats.  The rendering of these values as text and the
      timestamp are not modelled.  The console writes UTF-8 and refuses a
      lone surrogate, as the standard output of CPython does on a UTF-8
      terminal: a [print] whose text holds one raises [UnicodeEncodeError]
      and writes nothing.
    - The BLE transport ([self.client], a [BleakClient]) is a record of
      functions giving the answer of the peer to a read and to a write; the
      calls made on it are recorded in the effect trace.
    - Integers are unbounded.  [int] applies the default limit of CPython
      on the digits of a conversion ([max_str_digits]); [Json.dumps_checked]
      applies it to [json.dumps].  The depth of recursion is not limited,
      and [json.loads], which follows the scanner of CPython, does not apply
      the limit on digits: the properties that depend on it are stated for
      payloads that fit a GATT attribute.  [lower] and [int] are those of
      ASCII text.
    - Scanning for the device, connecting and subscribing are calls on the
      transport that carry no message of the protocol; they are kept apart
      from the protocol layer, in the module [NocturneSession]. *)

From Stdlib Require Import ZArith NArith List String Ascii Bool Lia.
From Stdlib.Strings Require Import Byte.
From Stdlib Require Import Decimal DecimalFacts DecimalPos DecimalN.
Import ListNotations.

Set Warnings "-register-all".

Local Open Scope N_scope.

(** ** Python values *)

Module Py.

(** A [str]: a sequence of code points. *)
Definition pystr := list N.

(** The code points of an ASCII literal. *)
Fixpoint cps (s : string) : pystr :=
  match s with
  | EmptyString => []
  | String a r => N_of_ascii a :: cps r
  end.

Fixpoint pystr_eqb (a b : pystr) : bool :=
  match a, b with
  | [], [] => true
  | x :: a', y :: b' => (x =? y) && pystr_eqb a' b'
  | _, _ => false
  end.

(** Exception classes.  [KeyboardInterrupt] derives from [BaseException]
    only; every other class here derives from [Exception]. *)
Inductive exn : Type :=
  | UnicodeDecodeError
  | UnicodeEncodeError
  | JSONDecodeError
  | RecursionError
  | AttributeError
  | TypeError
  | ValueError
  | IndexError
  | KeyError
  | BleakError
  | KeyboardInterrupt.

Definition is_Exception (e : exn) : bool :=
  match e with
  | KeyboardInterrupt => false
  | _ => true
  end.

(** [isinstance(e, json.JSONDecodeError)].  [UnicodeDecodeError] and
    [JSONDecodeError] are both subclasses of [ValueError], neither of the
    other. *)
Definition is_JSONDecodeError (e : exn) : bool :=
  match e with
  | JSONDecodeError => true
  | _ => false
  end.

Inductive result (A : Type) : Type :=
  | Ok (a : A)
  | Raise (e : exn).
Arguments Ok {A} a.
Arguments Raise {A} e.

Definition bind {A B : Type} (m : result A) (k : A -> result B) : result B :=
  match m with
  | Ok a => k a
  | Raise e => Raise e
  end.

(** A [float] obtained from a decimal literal is kept as that literal:
    [FDec neg m e] stands for the double nearest to [(-1)^neg * m * 10^e]. *)
Inductive pyfloat : Type :=
  | FNaN
  | FInf (neg : bool)
  | FDec (neg : bool) (m : N) (e : Z).

(** The values [json.loads] builds.  A [dict] is an association list in
    insertion order, with distinct keys. *)
Inductive pyval : Type :=
  | PNone
  | PBool (b : bool)
  | PInt (z : Z)
  | PFloat (f : pyfloat)
  | PStr (s : pystr)
  | PList (l : list pyval)
  | PDict (d : list (pystr * pyval)).

Definition pydict := list (pystr * pyval).

(** [d[k] = v] *)
Fixpoint dict_set (d : pydict) (k : pystr) (v : pyval) : pydict :=
  match d with
  | [] => [(k, v)]
  | (k', v') :: d' =>
      if pystr_eqb k' k then (k', v) :: d' else (k', v') :: dict_set d' k v
  end.

(** [dict(pairs)] *)
Definition dict_of_pairs (pairs : list (pystr * pyval)) : pydict :=
  fold_left (fun d kv => dict_set d (fst kv) (snd kv)) pairs [].

Fixpoint dict_lookup (d : pydict) (k : pystr) : option pyval :=
  match d with
  | [] => None
  | (k', v) :: d' => if pystr_eqb k' k then Some v else dict_lookup d' k
  end.

(** The attribute lookup [message.get]: only a [dict] has it. *)
Definition getattr_get (message : pyval) : result pydict :=
  match message with
  | PDict d => Ok d
  | _ => Raise AttributeError
  end.

(** [d.get(k, default)] *)
Definition dict_get (d : pydict) (k : pystr) (default : pyval) : pyval :=
  match dict_lookup d k with
  | Some v => v
  | None => default
  end.

(** [v == s] for a [str] literal [s]. *)
Definition eq_str (v : pyval) (s : pystr) : bool :=
  match v with
  | PStr t => pystr_eqb t s
  | _ => false
  end.

(** A double obtained from a literal is zero when the literal is zero or
    rounds to zero, that is, when its magnitude is at most [2^-1075], half
    of the least positive double (ties go to the even neighbour, zero). *)
Definition float_is_zero (f : pyfloat) : bool :=
  match f with
  | FNaN => false
  | FInf _ => false
  | FDec _ m e =>
      if (0 <=? e)%Z then m =? 0
      else (Z.of_N m * 2 ^ 1075 <=? 10 ^ (- e))%Z
  end.

(** [bool(v)] *)
Definition truthy (v : pyval) : bool :=
  match v with
  | PNone => false
  | PBool b => b
  | PInt z => negb (z =? 0)%Z
  | PFloat f => negb (float_is_zero f)
  | PStr s => match s with [] => false | _ => true end
  | PList l => match l with [] => false | _ => true end
  | PDict d => match d with [] => false | _ => true end
  end.

(** [isinstance(v, dict)] *)
Definition is_dict (v : pyval) : bool :=
  match v with
  | PDict _ => true
  | _ => false
  end.

(** [hash(v)] raises [TypeError] on a [list] or a [dict]. *)
Definition hashable (v : pyval) : bool :=
  match v with
  | PList _ => false
  | PDict _ => false
  | _ => true
  end.

(** [sys.int_info.default_max_str_digits]: converting an [int] to decimal
    text, or decimal text to an [int], raises [ValueError] when more digits
    than this are involved. *)
Definition max_str_digits : N := 4300.

End Py.

Export Py.

Declare Scope py_scope.
Delimit Scope py_scope with py.
Notation "x <- m ;; k" := (bind m (fun x => k))
  (at level 61, m at next level, right associativity) : py_scope.

(** ** [bytes.decode('utf-8')], [str.encode('utf-8')], [bytes.hex()] *)

Module Utf8.

Definition b2n (b : byte) : N := Byte.to_N b.

Definition n2b (n : N) : byte :=
  match Byte.of_N n with
  | Some b => b
  | None => x00
  end.

Definition between (lo hi : N) (b : byte) : bool :=
  (lo <=? b2n b) && (b2n b <=? hi).

(** The six low bits of a continuation byte. *)
Definition low6 (b : byte) : N := N.land (b2n b) 63.

(** Strict decoding: overlong forms, surrogates and code points above
    U+10FFFF are refused, as are stray continuation bytes and truncated
    sequences. *)
Fixpoint decode (bs : list byte) : result pystr :=
  match bs with
  | [] => Ok []
  | b0 :: r0 =>
      let c0 := b2n b0 in
      if c0 <? 128 then
        bind (decode r0) (fun s => Ok (c0 :: s))
      else if between 194 223 b0 then
        match r0 with
        | b1 :: r1 =>
            if between 128 191 b1 then
              bind (decode r1) (fun s =>
                Ok (N.shiftl (N.land c0 31) 6 + low6 b1 :: s))
            else Raise UnicodeDecodeError
        | _ => Raise UnicodeDecodeError
        end
      else if between 224 239 b0 then
        match r0 with
        | b1 :: b2 :: r2 =>
            if between (if c0 =? 224 then 160 else 128)
                       (if c0 =? 237 then 159 else 191) b1
               && between 128 191 b2 then
              bind (decode r2) (fun s =>
                Ok (N.shiftl (N.land c0 15) 12 + N.shiftl (low6 b1) 6
                    + low6 b2 :: s))
            else Raise UnicodeDecodeError
        | _ => Raise UnicodeDecodeError
        end
      else if between 240 244 b0 then
        match r0 with
        | b1 :: b2 :: b3 :: r3 =>
            if between (if c0 =? 240 then 144 else 128)
                       (if c0 =? 244 then 143 else 191) b1
               && between 128 191 b2 && between 128 191 b3 then
              bind (decode r3) (fun s =>
                Ok (N.shiftl (N.land c0 7) 18 + N.shiftl (low6 b1) 12
                    + N.shiftl (low6 b2) 6 + low6 b3 :: s))
            else Raise UnicodeDecodeError
        | _ => Raise UnicodeDecodeError
        end
      else Raise UnicodeDecodeError
  end.

Definition is_surrogate (c : N) : bool := (55296 <=? c) && (c <=? 57343).

Definition cont (n : N) : byte := n2b (128 + N.land n 63).

Fixpoint encode (s : pystr) : result (list byte) :=
  match s with
  | [] => Ok []
  | c :: r =>
      if c <? 128 then
        bind (encode r) (fun bs => Ok (n2b c :: bs))
      else if c <? 2048 then
        bind (encode r) (fun bs =>
          Ok (n2b (192 + N.shiftr c 6) :: cont c :: bs))
      else if is_surrogate c then Raise UnicodeEncodeError
      else if c <? 65536 then
        bind (encode r) (fun bs =>
          Ok (n2b (224 + N.shiftr c 12) :: cont (N.shiftr c 6) :: cont c
              :: bs))
      else
        bind (encode r) (fun bs =>
          Ok (n2b (240 + N.shiftr c 18) :: cont (N.shiftr c 12)
              :: cont (N.shiftr c 6) :: cont c :: bs))
  end.

Definition hex_digit (n : N) : N :=
  if n <? 10 then 48 + n else 87 + n.

(** [data.hex()]: two lower-case digits per byte. *)
Fixpoint hex (bs : list byte) : pystr :=
  match bs with
  | [] => []
  | b :: r =>
      hex_digit (N.shiftr (b2n b) 4) :: hex_digit (N.land (b2n b) 15) :: hex r
  end.

End Utf8.

(** ** The [json] module *)

Module Json.

Definition is_ws (c : N) : bool :=
  (c =? 32) || (c =? 9) || (c =? 10) || (c =? 13).

Fixpoint skip_ws (s : pystr) : pystr :=
  match s with
  | c :: r => if is_ws c then skip_ws r else s
  | [] => []
  end.

Definition hexval (c : N) : option N :=
  if (48 <=? c) && (c <=? 57) then Some (c - 48)
  else if (97 <=? c) && (c <=? 102) then Some (c - 87)
  else if (65 <=? c) && (c <=? 70) then Some (c - 55)
  else None.

(** The four hexadecimal digits of a [\uXXXX] escape. *)
Definition hex4 (a b c d : N) : option N :=
  match hexval a, hexval b, hexval c, hexval d with
  | Some x, Some y, Some z, Some w => Some (((x * 16 + y) * 16 + z) * 16 + w)
  | _, _, _, _ => None
  end.

(** The table [BACKSLASH] of one-letter escapes. *)
Definition backslash (c : N) : option N :=
  if c =? 34 then Some 34
  else if c =? 92 then Some 92
  else if c =? 47 then Some 47
  else if c =? 98 then Some 8
  else if c =? 102 then Some 12
  else if c =? 110 then Some 10
  else if c =? 114 then Some 13
  else if c =? 116 then Some 9
  else None.

Definition is_high_surrogate (c : N) : bool := (55296 <=? c) && (c <=? 56319).
Definition is_low_surrogate (c : N) : bool := (56320 <=? c) && (c <=? 57343).

Definition join_surrogates (hi lo : N) : N :=
  65536 + N.lor (N.shiftl (hi - 55296) 10) (lo - 56320).

Definition push (c : N) (r : option (pystr * pystr)) : option (pystr * pystr) :=
  match r with
  | Some (str, rest) => Some (c :: str, rest)
  | None => None
  end.

(** [scanstring(s, end, strict=True)], entered after the opening quote:
    the decoded string and what follows the closing quote, or [None] for
    [JSONDecodeError] (no closing quote, a control character, a bad
    escape). *)
Fixpoint scanstring (s : pystr) : option (pystr * pystr) :=
  match s with
  | [] => None
  | c :: r =>
      if c =? 34 then Some ([], r)
      else if c =? 92 then
        match r with
        | [] => None
        | e :: r1 =>
            if e =? 117 then
              match r1 with
              | h1 :: h2 :: h3 :: h4 :: r2 =>
                  match hex4 h1 h2 h3 h4 with
                  | None => None
                  | Some uni =>
                      if is_high_surrogate uni then
                        match r2 with
                        | b :: u :: l1 :: l2 :: l3 :: l4 :: r3 =>
                            if (b =? 92) && (u =? 117) then
                              match hex4 l1 l2 l3 l4 with
                              | None => None
                              | Some uni2 =>
                                  if is_low_surrogate uni2
                                  then push (join_surrogates uni uni2)
                                            (scanstring r3)
                                  else push uni (scanstring r2)
                              end
                            else push uni (scanstring r2)
                        | _ => push uni (scanstring r2)
                        end
                      else push uni (scanstring r2)
                  end
              | _ => None
              end
            else
              match backslash e with
              | Some ch => push ch (scanstring r1)
              | None => None
              end
        end
      else if c <? 32 then None
      else push c (scanstring r)
  end.

(** *** Numbers, as [NUMBER_RE] matches them: an integer part, an optional
    fraction, an optional exponent *)

Definition digit_of (c : N) : option (uint -> uint) :=
  if c =? 48 then Some D0 else if c =? 49 then Some D1
  else if c =? 50 then Some D2 else if c =? 51 then Some D3
  else if c =? 52 then Some D4 else if c =? 53 then Some D5
  else if c =? 54 then Some D6 else if c =? 55 then Some D7
  else if c =? 56 then Some D8 else if c =? 57 then Some D9
  else None.

(** The longest run of decimal digits at the head of [s], and the rest. *)
Fixpoint span_digits (s : pystr) : uint * pystr :=
  match s with
  | [] => (Nil, [])
  | c :: r =>
      match digit_of c with
      | Some d => let (ds, rest) := span_digits r in (d ds, rest)
      | None => (Nil, s)
      end
  end.

Definition signed (neg : bool) (n : N) : Z :=
  if neg then (- Z.of_N n)%Z else Z.of_N n.

(** [0], or a run of digits that does not start with [0]. *)
Definition match_digits (s : pystr) : option (uint * pystr) :=
  match s with
  | c :: r =>
      if c =? 48 then Some (D0 Nil, r)
      else match span_digits s with
           | (Nil, _) => None
           | (ds, rest) => Some (ds, rest)
           end
  | [] => None
  end.

(** Group 1: an optional minus sign, then the digits. *)
Definition match_integer (s : pystr) : option (bool * uint * pystr) :=
  let (neg, s1) :=
    match s with
    | c :: r => if c =? 45 then (true, r) else (false, s)
    | [] => (false, s)
    end in
  match match_digits s1 with
  | Some (ds, rest) => Some (neg, ds, rest)
  | None => None
  end.

(** At least one digit. *)
Definition some_digits (s : pystr) : option (uint * pystr) :=
  match span_digits s with
  | (Nil, _) => None
  | (ds, rest) => Some (ds, rest)
  end.

(** Group 2: a dot followed by at least one digit. *)
Definition match_frac (s : pystr) : option (uint * pystr) :=
  match s with
  | c :: r => if c =? 46 then some_digits r else None
  | [] => None
  end.

(** Group 3: [e] or [E], an optional sign, at least one digit. *)
Definition match_exp (s : pystr) : option (Z * pystr) :=
  match s with
  | c :: r =>
      if (c =? 101) || (c =? 69) then
        let (neg, r1) :=
          match r with
          | sg :: r' =>
              if sg =? 45 then (true, r')
              else if sg =? 43 then (false, r')
              else (false, r)
          | [] => (false, r)
          end in
        match some_digits r1 with
        | Some (ds, rest) => Some (signed neg (N.of_uint ds), rest)
        | None => None
        end
      else None
  | [] => None
  end.

(** [match_number]: an [int] when neither a fraction nor an exponent is
    present, a [float] otherwise. *)
Definition match_number (s : pystr) : option (pyval * pystr) :=
  match match_integer s with
  | None => None
  | Some (neg, ds, r1) =>
      match match_frac r1 with
      | Some (fs, r2) =>
          let m := N.of_uint (Decimal.app ds fs) in
          let k := Z.of_nat (Decimal.nb_digits fs) in
          match match_exp r2 with
          | Some (e, r3) => Some (PFloat (FDec neg m (e - k)), r3)
          | None => Some (PFloat (FDec neg m (- k)), r2)
          end
      | None =>
          match match_exp r1 with
          | Some (e, r3) => Some (PFloat (FDec neg (N.of_uint ds) e), r3)
          | None => Some (PInt (signed neg (N.of_uint ds)), r1)
          end
      end
  end.

(** A character of a numeral: a digit or the minus sign. *)
Definition numeric (c : N) : Prop := digit_of c <> None \/ c = 45.

(** The text after a run of digits does not go on with a digit. *)
Definition no_digit_ahead (rest : pystr) : Prop :=
  match rest with
  | [] => True
  | c :: _ => digit_of c = None
  end.

(** [s[idx:idx+len(lit)] == lit] *)
Fixpoint strip_prefix (lit s : pystr) : option pystr :=
  match lit, s with
  | [], _ => Some s
  | a :: lit', b :: s' => if a =? b then strip_prefix lit' s' else None
  | _ :: _, [] => None
  end.

(** The outcome of a scan: a value and the text after it, a syntax error
    ([JSONDecodeError]), or the recursion budget used up. *)
Inductive scan : Type :=
  | Scanned (v : pyval) (rest : pystr)
  | Malformed
  | Exhausted.

(** The literals tried after strings, objects and arrays, in the order of
    [_scan_once]: [null], [true], [false], a number, [NaN], [Infinity],
    [-Infinity]. *)
Definition scan_atom (s : pystr) : scan :=
  match strip_prefix (cps "null") s with
  | Some r => Scanned PNone r
  | None =>
  match strip_prefix (cps "true") s with
  | Some r => Scanned (PBool true) r
  | None =>
  match strip_prefix (cps "false") s with
  | Some r => Scanned (PBool false) r
  | None =>
  match match_number s with
  | Some (v, r) => Scanned v r
  | None =>
  match strip_prefix (cps "NaN") s with
  | Some r => Scanned (PFloat FNaN) r
  | None =>
  match strip_prefix (cps "Infinity") s with
  | Some r => Scanned (PFloat (FInf false)) r
  | None =>
  match strip_prefix (cps "-Infinity") s with
  | Some r => Scanned (PFloat (FInf true)) r
  | None => Malformed
  end end end end end end end.

(** [scan_once] with the loops of [JSONObject] and [JSONArray].  Every call
    spends one unit of [fuel]; [object_loop] is entered after the opening
    quote of a key, [array_loop] at the start of an element.  The pairs of
    an object are put in the dictionary as they are read, which is what
    [dict(pairs)] does with the list of pairs. *)
Fixpoint scan_once (fuel : nat) (s : pystr) {struct fuel} : scan :=
  match fuel with
  | O => Exhausted
  | S fuel' =>
      match s with
      | [] => Malformed
      | c :: r =>
          if c =? 34 then
            match scanstring r with
            | Some (str, rest) => Scanned (PStr str) rest
            | None => Malformed
            end
          else if c =? 123 then
            match skip_ws r with
            | c1 :: r1 =>
                if c1 =? 125 then Scanned (PDict []) r1
                else if c1 =? 34 then object_loop fuel' r1 []
                else Malformed
            | [] => Malformed
            end
          else if c =? 91 then
            match skip_ws r with
            | c1 :: r1 =>
                if c1 =? 93 then Scanned (PList []) r1
                else array_loop fuel' (c1 :: r1) []
            | [] => Malformed
            end
          else scan_atom s
      end
  end

with object_loop (fuel : nat) (s : pystr) (acc : pydict) {struct fuel} : scan :=
  match fuel with
  | O => Exhausted
  | S fuel' =>
      match scanstring s with
      | None => Malformed
      | Some (key, r1) =>
          match skip_ws r1 with
          | c :: r2 =>
              if c =? 58 then
                match scan_once fuel' (skip_ws r2) with
                | Scanned v r3 =>
                    let acc' := dict_set acc key v in
                    match skip_ws r3 with
                    | c' :: r4 =>
                        if c' =? 125 then Scanned (PDict acc') r4
                        else if c' =? 44 then
                          match skip_ws r4 with
                          | q :: r5 =>
                              if q =? 34 then object_loop fuel' r5 acc'
                              else Malformed
                          | [] => Malformed
                          end
                        else Malformed
                    | [] => Malformed
                    end
                | Malformed => Malformed
                | Exhausted => Exhausted
                end
              else Malformed
          | [] => Malformed
          end
      end
  end

with array_loop (fuel : nat) (s : pystr) (acc : list pyval) {struct fuel} : scan :=
  match fuel with
  | O => Exhausted
  | S fuel' =>
      match scan_once fuel' s with
      | Scanned v r1 =>
          match skip_ws r1 with
          | c :: r2 =>
              if c =? 93 then Scanned (PList (acc ++ [v])) r2
              else if c =? 44 then array_loop fuel' (skip_ws r2) (acc ++ [v])
              else Malformed
          | [] => Malformed
          end
      | Malformed => Malformed
      | Exhausted => Exhausted
      end
  end.

(** [json.loads(s)] for a [str]: a leading byte-order mark is refused, then
    [JSONDecoder.decode]: white space, one value, white space, end of text.
    The budget given to [scan_once] is more than it can use (see
    [loads_budget]), so [RecursionError] is never the answer. *)
Definition loads (s : pystr) : result pyval :=
  match s with
  | 65279 :: _ => Raise JSONDecodeError
  | _ =>
      match scan_once (2 + 2 * List.length s) (skip_ws s) with
      | Scanned v rest =>
          match skip_ws rest with
          | [] => Ok v
          | _ :: _ => Raise JSONDecodeError
          end
      | Malformed => Raise JSONDecodeError
      | Exhausted => Raise RecursionError
      end
  end.

(** *** [json.dumps] on the dictionaries the client sends: [str] keys, [str]
    or [int] values, default separators, [ensure_ascii=True] *)

Inductive cmd_value : Type :=
  | CStr (s : pystr)
  | CInt (z : Z).

Definition command_dict := list (pystr * cmd_value).

Fixpoint chars_of_uint (d : uint) : pystr :=
  match d with
  | Nil => []
  | D0 d' => 48 :: chars_of_uint d'
  | D1 d' => 49 :: chars_of_uint d'
  | D2 d' => 50 :: chars_of_uint d'
  | D3 d' => 51 :: chars_of_uint d'
  | D4 d' => 52 :: chars_of_uint d'
  | D5 d' => 53 :: chars_of_uint d'
  | D6 d' => 54 :: chars_of_uint d'
  | D7 d' => 55 :: chars_of_uint d'
  | D8 d' => 56 :: chars_of_uint d'
  | D9 d' => 57 :: chars_of_uint d'
  end.

(** The decimal text of an [int]: what [repr] returns when the integer is
    within the limit on digits. *)
Definition str_of_int (z : Z) : pystr :=
  match z with
  | Zneg p => 45 :: chars_of_uint (Pos.to_uint p)
  | _ => chars_of_uint (N.to_uint (Z.to_N z))
  end.

Definition hex4_of (c : N) : pystr :=
  [Utf8.hex_digit (N.land (N.shiftr c 12) 15);
   Utf8.hex_digit (N.land (N.shiftr c 8) 15);
   Utf8.hex_digit (N.land (N.shiftr c 4) 15);
   Utf8.hex_digit (N.land c 15)].

(** One character under [encode_basestring_ascii]. *)
Definition escape_ascii (c : N) : pystr :=
  if c =? 34 then [92; 34]
  else if c =? 92 then cps "\\"
  else if c =? 10 then cps "\n"
  else if c =? 13 then cps "\r"
  else if c =? 9 then cps "\t"
  else if c =? 8 then cps "\b"
  else if c =? 12 then cps "\f"
  else if (32 <=? c) && (c <=? 126) then [c]
  else if c <? 65536 then cps "\u" ++ hex4_of c
  else
    let v := c - 65536 in
    cps "\u" ++ hex4_of (55296 + N.land (N.shiftr v 10) 1023)
    ++ cps "\u" ++ hex4_of (56320 + N.land v 1023).

Definition encode_basestring_ascii (s : pystr) : pystr :=
  34 :: flat_map escape_ascii s ++ [34].

Definition dumps_value (v : cmd_value) : pystr :=
  match v with
  | CStr s => encode_basestring_ascii s
  | CInt z => str_of_int z
  end.

Definition dumps_item (kv : pystr * cmd_value) : pystr :=
  encode_basestring_ascii (fst kv) ++ cps ": " ++ dumps_value (snd kv).

Fixpoint dumps_items (d : command_dict) : pystr :=
  match d with
  | [] => []
  | [kv] => dumps_item kv
  | kv :: d' => dumps_item kv ++ cps ", " ++ dumps_items d'
  end.

Definition dumps (d : command_dict) : pystr :=
  123 :: dumps_items d ++ [125].

(** The number of decimal digits of an integer. *)
Definition int_digits (z : Z) : N := N.of_nat (nb_digits (N.to_uint (Z.abs_N z))).

(** Every integer of the dictionary can be converted to text. *)
Definition within_limit (d : command_dict) : bool :=
  forallb (fun kv => match snd kv with
                     | CInt z => int_digits z <=? max_str_digits
                     | CStr _ => true
                     end) d.

(** [json.dumps] with the limit on the digits of an integer: the text
    [dumps d], or [ValueError] when an integer has too many digits. *)
Definition dumps_checked (d : command_dict) : result pystr :=
  if within_limit d then Ok (dumps d) else Raise ValueError.

(** The value [json.loads] is expected to give back. *)
Definition pyval_of_cmd_value (v : cmd_value) : pyval :=
  match v with
  | CStr s => PStr s
  | CInt z => PInt z
  end.

Definition pyval_of_command (d : command_dict) : pyval :=
  PDict (map (fun kv => (fst kv, pyval_of_cmd_value (snd kv))) d).

End Json.

(** ** [str] methods and [int] used by the command loop

    [lower] maps the letters A to Z only: the line typed by the operator is
    taken to be ASCII text. *)

Module Str.

(** [c.isspace()] *)
Definition isspace (c : N) : bool :=
  ((9 <=? c) && (c <=? 13)) || ((28 <=? c) && (c <=? 32))
  || (c =? 133) || (c =? 160) || (c =? 5760)
  || ((8192 <=? c) && (c <=? 8202))
  || (c =? 8232) || (c =? 8233) || (c =? 8239) || (c =? 8287) || (c =? 12288).

Fixpoint lstrip (s : pystr) : pystr :=
  match s with
  | c :: r => if isspace c then lstrip r else s
  | [] => []
  end.

Definition strip (s : pystr) : pystr :=
  List.rev (lstrip (List.rev (lstrip s))).

Definition lower (s : pystr) : pystr :=
  map (fun c => if (65 <=? c) && (c <=? 90) then c + 32 else c) s.

Definition startswith (s prefix : pystr) : bool :=
  match Json.strip_prefix prefix s with
  | Some _ => true
  | None => false
  end.

(** [s.split()]: the maximal runs of characters that are not white space.
    [cur] is the run being read. *)
Fixpoint split_from (s cur : pystr) : list pystr :=
  match s with
  | [] => match cur with [] => [] | _ => [cur] end
  | c :: r =>
      if isspace c then
        match cur with
        | [] => split_from r []
        | _ => cur :: split_from r []
        end
      else split_from r (cur ++ [c])
  end.

Definition split (s : pystr) : list pystr := split_from s [].

(** [l[i]] *)
Definition subscript {A : Type} (l : list A) (i : nat) : result A :=
  match nth_error l i with
  | Some a => Ok a
  | None => Raise IndexError
  end.

(** Digits, with single underscores allowed between two digits. *)
Fixpoint grouped_digits (s : pystr) : option uint :=
  match s with
  | [] => None
  | c :: r =>
      match Json.digit_of c with
      | None => None
      | Some d =>
          match r with
          | [] => Some (d Nil)
          | u :: r' =>
              match (if u =? 95 then grouped_digits r' else grouped_digits r) with
              | Some ds => Some (d ds)
              | None => None
              end
          end
      end
  end.

(** [int(s)] in base ten: white space around, an optional sign, digits.
    The digits are counted, leading zeros included and underscores left
    out, and more than [max_str_digits] of them are refused. *)
Definition int (s : pystr) : result Z :=
  let t := strip s in
  let (neg, body) :=
    match t with
    | c :: r =>
        if c =? 45 then (true, r)
        else if c =? 43 then (false, r)
        else (false, t)
    | [] => (false, t)
    end in
  match grouped_digits body with
  | Some ds =>
      if N.of_nat (nb_digits ds) <=? max_str_digits
      then Ok (Json.signed neg (N.of_uint ds))
      else Raise ValueError
  | None => Raise ValueError
  end.

End Str.

(** ** The client *)

(** Nordic UART Service compatible UUIDs *)
Definition SERVICE_UUID : string := "6E400001-B5A3-F393-E0A9-E50E24DCCA9E"%string.
Definition COMMAND_CHAR_UUID : string := "6E400002-B5A3-F393-E0A9-E50E24DCCA9E"%string.
Definition STATE_CHAR_UUID : string := "6E400003-B5A3-F393-E0A9-E50E24DCCA9E"%string.
Definition DEBUG_CHAR_UUID : string := "6E400004-B5A3-F393-E0A9-E50E24DCCA9E"%string.
Definition INFO_CHAR_UUID : string := "6E400005-B5A3-F393-E0A9-E50E24DCCA9E"%string.

(** The four roles of the protocol and the characteristic of each. *)
Inductive EndpointRole : Type :=
  | CommandSink
  | StateSource
  | DebugSource
  | InfoSource.

Definition resolve (role : EndpointRole) : string :=
  match role with
  | CommandSink => COMMAND_CHAR_UUID
  | StateSource => STATE_CHAR_UUID
  | DebugSource => DEBUG_CHAR_UUID
  | InfoSource => INFO_CHAR_UUID
  end.

(** One record per [print] call of the client, with the values it formats. *)
Inductive out : Type :=
  | StateHeader
  | TrackArtist (track artist : pyval)
  | Playing (is_playing : pyval)
  | Volume (volume_percent : pyval)
  | Document (message : pyval)
  | LogLine (symbol : pystr) (log_type msg : pyval)
  | LogData (data : pyval)
  | RawData (hex : pystr)
  | HandlingError (e : exn)
  | Capabilities
  | InfoFailed (e : exn)
  | Sending (json_str : pystr)
  | Sent
  | SendFailed (e : exn)
  | UnknownCommand
  | LoopError (e : exn).

(** What the client does to the world: console output and calls on the
    transport. *)
Inductive effect : Type :=
  | Print (o : out)
  | ReadChar (uuid : string)
  | WriteChar (uuid : string) (payload : list byte).

(** [self.client]: the answers of the transport. *)
Record BleakClient : Type := {
  read_gatt_char : string -> result (list byte);
  write_gatt_char : string -> list byte -> result unit
}.

(** A statement: the effects it performs, then its value or the exception
    that ends it. *)
Definition io (A : Type) : Type := (list effect * result A)%type.

Definition ret {A : Type} (a : A) : io A := ([], Ok a).

Definition lift {A : Type} (r : result A) : io A := ([], r).

Definition seq {A B : Type} (m : io A) (k : A -> io B) : io B :=
  match m with
  | (t, Ok a) => let (t', r) := k a in (t ++ t', r)
  | (t, Raise e) => (t, Raise e)
  end.

(** [str(v)] can be written on the console: a [str] is written as it is,
    and must hold no surrogate; the text of any other value escapes what
    cannot be written. *)
Definition str_encodes (v : pyval) : bool :=
  match v with
  | PStr s => forallb (fun c => negb (Utf8.is_surrogate c)) s
  | _ => true
  end.

(** The console can write the text of a record.  Only a [str] of a
    message that an f-string formats can hold a surrogate: [json.dumps] and
    [repr] escape it, [hex] and the text of an exception do not have one. *)
Definition encodable (o : out) : bool :=
  match o with
  | TrackArtist track artist => str_encodes track && str_encodes artist
  | Playing is_playing => str_encodes is_playing
  | Volume volume_percent => str_encodes volume_percent
  | LogLine _ log_type msg => str_encodes log_type && str_encodes msg
  | _ => true
  end.

(** [print]: the text is encoded first, and written as a whole. *)
Definition print (o : out) : io unit :=
  if encodable o then ([Print o], Ok tt) else ([], Raise UnicodeEncodeError).

(** [try: body / except ...: handler], the handler deciding by the class of
    the exception and re-raising what no clause catches. *)
Definition try_except {A : Type} (body : io A) (handler : exn -> io A) : io A :=
  match body with
  | (t, Ok a) => (t, Ok a)
  | (t, Raise e) => let (t', r) := handler e in (t ++ t', r)
  end.

Declare Scope io_scope.
Delimit Scope io_scope with io.
Notation "x <- m ;; k" := (seq m (fun x => k))
  (at level 61, m at next level, right associativity) : io_scope.
Notation "m ;; k" := (seq m (fun _ => k))
  (at level 61, right associativity) : io_scope.

Module NocturneTestClient.

Local Open Scope io_scope.

(** [json.loads(data.decode('utf-8'))], the expression of lines 73 and 84. *)
Definition loads_utf8 (data : list byte) : result pyval :=
  bind (Utf8.decode data) Json.loads.

(** The table of line 101, and the marker used for a level it does not
    hold. *)
Definition level_symbols : list (pystr * pystr) :=
  [ (cps "ERROR", [10060%N]);
    (cps "WARNING", [9888%N; 65039%N]);
    (cps "INFO", [8505%N; 65039%N]);
    (cps "DEBUG", [128295%N]);
    (cps "VERBOSE", [128221%N]) ].

Definition fallback_symbol : pystr := [128221%N].

(** [level_symbols.get(level, default)]: the key is hashed first. *)
Definition level_symbols_get (level : pyval) (default : pystr) : result pystr :=
  if hashable level then
    match level with
    | PStr s =>
        match find (fun kv => pystr_eqb (fst kv) s) level_symbols with
        | Some kv => Ok (snd kv)
        | None => Ok default
        end
    | _ => Ok default
    end
  else Raise TypeError.

(** [message[k]] *)
Definition getitem (d : pydict) (k : pystr) : result pyval :=
  match dict_lookup d k with
  | Some v => Ok v
  | None => Raise KeyError
  end.

(** The closure returned by [notification_handler(char_uuid)], applied to
    the bytes of one notification. *)
Definition notification_handler (char_uuid : string) (data : list byte) : io unit :=
  try_except
    (message <- lift (loads_utf8 data) ;;
     if String.eqb char_uuid STATE_CHAR_UUID then
       print StateHeader ;;
       d <- lift (getattr_get message) ;;
       if eq_str (dict_get d (cps "type") PNone) (cps "stateUpdate") then
         print (TrackArtist (dict_get d (cps "track") (PStr (cps "Unknown")))
                            (dict_get d (cps "artist") (PStr (cps "Unknown")))) ;;
         print (Playing (dict_get d (cps "is_playing") (PBool false))) ;;
         print (Volume (dict_get d (cps "volume_percent") (PInt 0)))
       else
         print (Document message)
     else if String.eqb char_uuid DEBUG_CHAR_UUID then
       d <- lift (getattr_get message) ;;
       let level := dict_get d (cps "level") (PStr (cps "INFO")) in
       let log_type := dict_get d (cps "type") (PStr (cps "LOG")) in
       let msg := dict_get d (cps "message") (PStr []) in
       symbol <- lift (level_symbols_get level fallback_symbol) ;;
       print (LogLine symbol log_type msg) ;;
       if truthy (dict_get d (cps "data") PNone) then
         data' <- lift (getitem d (cps "data")) ;;
         print (LogData data')
       else ret tt
     else ret tt)
    (fun e =>
       if is_JSONDecodeError e then print (RawData (Utf8.hex data))
       else if is_Exception e then print (HandlingError e)
       else lift (Raise e)).

(** Read device capabilities *)
Definition read_device_info (client : BleakClient) : io unit :=
  try_except
    (data <- ([ReadChar INFO_CHAR_UUID], read_gatt_char client INFO_CHAR_UUID) ;;
     info <- lift (loads_utf8 data) ;;
     print Capabilities ;;
     print (Document info))
    (fun e =>
       if is_Exception e then print (InfoFailed e) else lift (Raise e)).

(** Send a command to the device.  [json.dumps] is taken where it returns:
    the loop passes the six dictionaries it builds, whose integer, read by
    [int], is within the limit on digits.  [Json.dumps_checked] is
    [json.dumps] on any dictionary. *)
Definition send_command (client : BleakClient) (command : Json.command_dict) : io unit :=
  try_except
    (let json_str := Json.dumps command in
     print (Sending json_str) ;;
     payload <- lift (Utf8.encode json_str) ;;
     ([WriteChar COMMAND_CHAR_UUID payload],
      write_gatt_char client COMMAND_CHAR_UUID payload) ;;
     print Sent)
    (fun e =>
       if is_Exception e then print (SendFailed e) else lift (Raise e)).

Inductive loop_ctl : Type :=
  | Break
  | Continue.

(** The dictionaries built by the command loop. *)
Definition simple_command (name : string) : Json.command_dict :=
  [(cps "command", Json.CStr (cps name))].

Definition seek_to_command (ms : Z) : Json.command_dict :=
  [(cps "command", Json.CStr (cps "seek_to")); (cps "value_ms", Json.CInt ms)].

Definition set_volume_command (percent : Z) : Json.command_dict :=
  [(cps "command", Json.CStr (cps "set_volume"));
   (cps "value_percent", Json.CInt percent)].

(** One turn of the [while True] loop of [interactive_mode], on the line
    that [input] returned.  The prompt and the pause that ends the turn
    are left out. *)
Definition interactive_step (client : BleakClient) (line : pystr) : io loop_ctl :=
  try_except
    (let cmd := Str.lower (Str.strip line) in
     if pystr_eqb cmd (cps "quit") then ret Break
     else
       (if pystr_eqb cmd (cps "play") then
          send_command client (simple_command "play")
        else if pystr_eqb cmd (cps "pause") then
          send_command client (simple_command "pause")
        else if pystr_eqb cmd (cps "next") then
          send_command client (simple_command "next")
        else if pystr_eqb cmd (cps "prev") then
          send_command client (simple_command "previous")
        else if Str.startswith cmd (cps "seek ") then
          tok <- lift (Str.subscript (Str.split cmd) 1) ;;
          ms <- lift (Str.int tok) ;;
          send_command client (seek_to_command ms)
        else if Str.startswith cmd (cps "vol ") then
          tok <- lift (Str.subscript (Str.split cmd) 1) ;;
          percent <- lift (Str.int tok) ;;
          send_command client (set_volume_command percent)
        else if pystr_eqb cmd (cps "info") then
          read_device_info client
        else
          print UnknownCommand) ;;
       ret Continue)
    (fun e =>
       match e with
       | KeyboardInterrupt => ret Break
       | _ =>
           if is_Exception e then print (LoopError e) ;; ret Continue
           else lift (Raise e)
       end).

(** The loop on the lines typed so far: it stops at [quit]. *)
Fixpoint interactive_mode (client : BleakClient) (lines : list pystr) : io unit :=
  match lines with
  | [] => ret tt
  | line :: rest =>
      ctl <- interactive_step client line ;;
      match ctl with
      | Break => ret tt
      | Continue => interactive_mode client rest
      end
  end.

(** The transport calls in a trace. *)
Definition writes (t : list effect) : list (string * list byte) :=
  flat_map (fun ef => match ef with
                      | WriteChar u p => [(u, p)]
                      | _ => []
                      end) t.

(** The longest value of a GATT attribute, in bytes: no notification is
    longer. *)
Definition ATT_MAX_VALUE_LEN : nat := 512.

(** A transport that accepts every write and answers a read with [info]. *)
Definition accepting_client (info : list byte) : BleakClient :=
  {| read_gatt_char := fun _ => Ok info;
     write_gatt_char := fun _ _ => Ok tt |}.

(** The bytes of an ASCII text, an apostrophe standing for a double quote. *)
Definition payload (s : string) : list byte :=
  map (fun b => match b with
                | x27 => x22
                | _ => b
                end) (list_byte_of_string s).

(** The same for a [str]. *)
Definition text (s : string) : pystr := map Utf8.b2n (payload s).

(** What [json.dumps] writes before the argument of the two commands that
    have one. *)
Definition seek_to_prefix : pystr :=
  Eval cbv in text "{'command': 'seek_to', 'value_ms': ".

Definition set_volume_prefix : pystr :=
  Eval cbv in text "{'command': 'set_volume', 'value_percent': ".

(** Text that [utf-8] encodes with one byte per character. *)
Definition ascii_text (s : pystr) : Prop := Forall (fun c => c < 128) s.

(** The bytes of a command, and that they read back as the command. *)
Definition on_the_wire (c : Json.command_dict) (p : list byte) : Prop :=
  Utf8.encode (Json.dumps c) = Ok p /\
  loads_utf8 p = Ok (Json.pyval_of_command c).

(** The shapes of command the data model allows: the tag alone for the four
    plain commands, the tag and its one argument for the other two. *)
Inductive command_shape : Json.command_dict -> Prop :=
  | shape_play : command_shape (simple_command "play")
  | shape_pause : command_shape (simple_command "pause")
  | shape_next : command_shape (simple_command "next")
  | shape_previous : command_shape (simple_command "previous")
  | shape_seek_to ms : command_shape (seek_to_command ms)
  | shape_set_volume percent : command_shape (set_volume_command percent).

(** A transport write that carries a command of one of the six shapes. *)
Definition wire_command (w : string * list byte) : Prop :=
  fst w = COMMAND_CHAR_UUID /\
  exists c, command_shape c /\ on_the_wire c (snd w).

(** The fields of a command, as the data model lists them: [command] alone
    for the four plain tags, [command] and [value_ms] for [seek_to],
    [command] and [value_percent] for [set_volume], the tag being a string
    and the argument an integer. *)
Definition exact_fields (c : Json.command_dict) : Prop :=
  match c with
  | [(k, Json.CStr tag)] =>
      k = cps "command" /\
      In tag [cps "play"; cps "pause"; cps "next"; cps "previous"]
  | [(k, Json.CStr tag); (k', Json.CInt _)] =>
      k = cps "command" /\
      ((tag = cps "seek_to" /\ k' = cps "value_ms") \/
       (tag = cps "set_volume" /\ k' = cps "value_percent"))
  | _ => False
  end.

(** A valid [Command]: a non-negative position, a volume between 0 and
    100. *)
Inductive valid_command : Json.command_dict -> Prop :=
  | valid_play : valid_command (simple_command "play")
  | valid_pause : valid_command (simple_command "pause")
  | valid_next : valid_command (simple_command "next")
  | valid_previous : valid_command (simple_command "previous")
  | valid_seek_to ms : (0 <= ms)%Z -> valid_command (seek_to_command ms)
  | valid_set_volume percent :
      (0 <= percent <= 100)%Z -> valid_command (set_volume_command percent).

(** The values of the [data] field listed as empty: an empty object, an
    empty array, an empty string, zero, false, null. *)
Definition empty_values : list pyval :=
  [PDict []; PList []; PStr []; PInt 0; PBool false; PNone].

(** The names of the five log levels. *)
Definition level_names : list pystr := map fst level_symbols.

(** The marker the table gives to a level name. *)
Definition symbol_of_level (name : string) : pystr :=
  match find (fun kv => pystr_eqb (fst kv) (cps name)) level_symbols with
  | Some kv => snd kv
  | None => fallback_symbol
  end.

End NocturneTestClient.

Import NocturneTestClient.

(** ** The session: discovery, connection, subscription, teardown *)

Module NocturneSession.

(** [sub in s] for two [str]: [sub] occurs somewhere in [s]. *)
Fixpoint contains (sub s : pystr) : bool :=
  match Json.strip_prefix sub s with
  | Some _ => true
  | None =>
      match s with
      | [] => false
      | _ :: r => contains sub r
      end
  end.

(** [sep.join(l)] *)
Fixpoint join (sep : pystr) (l : list pystr) : pystr :=
  match l with
  | [] => []
  | [x] => x
  | x :: r => x ++ sep ++ join sep r
  end.

(** A device of the scan: [device.name] ([None] or a [str]),
    [device.address], and the list under the key [uuids] of
    [device.metadata] ([None] when the key is absent). *)
Record BLEDevice : Type := {
  dev_name : option pystr;
  dev_address : pystr;
  dev_uuids : option (list pystr)
}.

(** [device.name and "NocturneCompanion" in device.name] *)
Definition name_matches (d : BLEDevice) : bool :=
  match dev_name d with
  | Some (c :: n) => contains (cps "NocturneCompanion") (c :: n)
  | _ => false
  end.

(** [device.metadata.get("uuids", [])] *)
Definition advertised (d : BLEDevice) : list pystr :=
  match dev_uuids d with
  | Some l => l
  | None => []
  end.

(** [SERVICE_UUID.lower() in [uuid.lower() for uuid in ...]].  The lower
    case of the service UUID holds digits, the letters a to f and dashes
    only, and no character outside ASCII has one of these as its lower
    case, so the ASCII [lower] decides this test as Python does. *)
Definition service_matches (d : BLEDevice) : bool :=
  existsb (pystr_eqb (Str.lower (cps SERVICE_UUID)))
          (map Str.lower (advertised d)).

Definition matches (d : BLEDevice) : bool :=
  name_matches d || service_matches d.

Record GattCharacteristic : Type := {
  char_uuid : pystr;
  char_properties : list pystr
}.

Record GattService : Type := {
  service_uuid : pystr;
  service_characteristics : list GattCharacteristic
}.

(** One record per [print] call of the session code. *)
Inductive notice : Type :=
  | Scanning
  | Found (d : BLEDevice)
  | FoundByService (d : BLEDevice)
  | NotFound
  | Connecting (address : pystr)
  | Connected
  | ServicesHeader
  | ServiceLine (uuid : pystr)
  | CharacteristicLine (uuid props : pystr)
  | ConnectionFailed (e : exn)
  | SubscribedState
  | SubscribedDebug
  | SubscribeFailed (e : exn)
  | Disconnected.

(** What a session does: its own console lines, its calls on the scanner
    and on the link, and what [read_device_info] and the command loop do.
    [StartNotify uuid bound] is [start_notify(uuid, h)] with [h] the
    closure [notification_handler(bound)]. *)
Inductive event : Type :=
  | Say (n : notice)
  | Discover
  | Connect (address : pystr)
  | StartNotify (uuid bound : string)
  | Disconnect
  | Client (ef : effect).

(** The answers of the scanner and of the link. *)
Record Peer : Type := {
  scan_answer : result (list BLEDevice);
  connect_answer : pystr -> result unit;
  services : list GattService;
  notify_answer : string -> result unit;
  is_connected : bool;
  disconnect_answer : result unit;
  gatt : BleakClient
}.

Definition act (A : Type) : Type := (list event * result A)%type.

Definition done {A : Type} (a : A) : act A := ([], Ok a).

Definition say (n : notice) : act unit := ([Say n], Ok tt).

(** A call on the scanner or the link, with its answer. *)
Definition call {A : Type} (ev : event) (answer : result A) : act A :=
  ([ev], answer).

Definition and_then {A B : Type} (m : act A) (k : A -> act B) : act B :=
  match m with
  | (t, Ok a) => let (t', r) := k a in (t ++ t', r)
  | (t, Raise e) => (t, Raise e)
  end.

(** [try: body / except ...: handler] *)
Definition guarded {A : Type} (body : act A) (handler : exn -> act A) : act A :=
  match body with
  | (t, Ok a) => (t, Ok a)
  | (t, Raise e) => let (t', r) := handler e in (t ++ t', r)
  end.

(** [try: body / finally: closing]: [closing] runs in every case; what it
    raises replaces the outcome of [body]. *)
Definition ensure {A : Type} (body : act A) (closing : act unit) : act A :=
  let (t, r) := body in
  match closing with
  | (t', Ok _) => (t ++ t', r)
  | (t', Raise e) => (t ++ t', Raise e)
  end.

(** The methods of [NocturneTestClient] modelled before, inside a session. *)
Definition of_io {A : Type} (m : io A) : act A := (map Client (fst m), snd m).

Declare Scope act_scope.
Delimit Scope act_scope with act.
Notation "x <- m ;; k" := (and_then m (fun x => k))
  (at level 61, m at next level, right associativity) : act_scope.
Notation "m ;; k" := (and_then m (fun _ => k))
  (at level 61, right associativity) : act_scope.

Local Open Scope act_scope.

(** The [for device in devices] loop of [find_device]. *)
Fixpoint first_match (devices : list BLEDevice) : act (option BLEDevice) :=
  match devices with
  | [] => say NotFound ;; done None
  | d :: rest =>
      if name_matches d then say (Found d) ;; done (Some d)
      else if service_matches d then say (FoundByService d) ;; done (Some d)
      else first_match rest
  end.

(** Find NocturneCompanion device *)
Definition find_device (peer : Peer) : act (option BLEDevice) :=
  say Scanning ;;
  devices <- call Discover (scan_answer peer) ;;
  first_match devices.

(** The two nested loops that list the services. *)
Definition list_services (l : list GattService) : act unit :=
  (flat_map (fun s =>
     Say (ServiceLine (service_uuid s))
     :: map (fun c => Say (CharacteristicLine (char_uuid c)
                             (join (cps ", ") (char_properties c))))
            (service_characteristics s)) l, Ok tt).

(** Connect to the device *)
Definition connect (peer : Peer) : act bool :=
  device <- find_device peer ;;
  match device with
  | None => done false
  | Some d =>
      say (Connecting (dev_address d)) ;;
      guarded
        (call (Connect (dev_address d)) (connect_answer peer (dev_address d)) ;;
         say Connected ;;
         say ServicesHeader ;;
         list_services (services peer) ;;
         done true)
        (fun e =>
           if is_Exception e then say (ConnectionFailed e) ;; done false
           else (([], Raise e) : act bool))
  end.

(** Subscribe to notifications *)
Definition subscribe_notifications (peer : Peer) : act unit :=
  guarded
    (call (StartNotify STATE_CHAR_UUID STATE_CHAR_UUID)
          (notify_answer peer STATE_CHAR_UUID) ;;
     say SubscribedState ;;
     call (StartNotify DEBUG_CHAR_UUID DEBUG_CHAR_UUID)
          (notify_answer peer DEBUG_CHAR_UUID) ;;
     say SubscribedDebug)
    (fun e =>
       if is_Exception e then say (SubscribeFailed e)
       else (([], Raise e) : act unit)).

(** How the command loop stands after the lines typed so far: left by
    [break], or waiting in [input] for the next line. *)
Inductive loop_end : Type :=
  | LoopLeft
  | LoopWaiting.

(** The [while True] loop of [interactive_mode] on the lines typed so
    far. *)
Fixpoint command_loop (client : BleakClient) (lines : list pystr) : io loop_end :=
  match lines with
  | [] => ret LoopWaiting
  | line :: rest =>
      seq (interactive_step client line)
          (fun ctl =>
             match ctl with
             | Break => ret LoopLeft
             | Continue => command_loop client rest
             end)
  end.

(** How [run] stands: it returned without a connection, it returned after
    the [finally] block, or it is still inside the command loop. *)
Inductive run_end : Type :=
  | NotConnected
  | Closed
  | Running.

(** The [finally] block of [run]. *)
Definition closing (peer : Peer) : act unit :=
  if is_connected peer then
    call Disconnect (disconnect_answer peer) ;;
    say Disconnected
  else done tt.

(** The body of the [try] of [run]. *)
Definition session_body (peer : Peer) (lines : list pystr) : act loop_end :=
  of_io (read_device_info (gatt peer)) ;;
  subscribe_notifications peer ;;
  of_io (command_loop (gatt peer) lines).

(** Main run method, on the lines typed so far.  While the loop waits for
    a line the [finally] block has not run. *)
Definition run (peer : Peer) (lines : list pystr) : act run_end :=
  ok <- connect peer ;;
  if negb ok then done NotConnected
  else
    match session_body peer lines with
    | (t, Ok LoopWaiting) => (t, Ok Running)
    | (t, Ok LoopLeft) => ensure (t, Ok Closed) (closing peer)
    | (t, Raise e) => ensure (t, Raise e) (closing peer)
    end.

(** What [lower] does to one character of an ASCII line. *)
Definition lower_char (c : N) : N :=
  if (65 <=? c) && (c <=? 90) then c + 32 else c.

(** A device that neither test of [find_device] recognises. *)
Definition no_match (d : BLEDevice) : Prop := matches d = false.


(** The calls on the scanner, the link and the characteristics, without
    the console lines. *)
Definition is_call (ev : event) : bool :=
  match ev with
  | Say _ => false
  | Client (Print _) => false
  | _ => true
  end.

Definition transport_calls (t : list event) : list event := filter is_call t.

(** The reads and writes in a trace of the client. *)
Definition io_calls (t : list effect) : list effect :=
  filter (fun ef => match ef with
                    | Print _ => false
                    | _ => true
                    end) t.

(** A transport whose failures are ordinary exceptions. *)
Definition ordinary_failures (client : BleakClient) : Prop :=
  (forall u e, read_gatt_char client u = Raise e -> is_Exception e = true) /\
  (forall u p e, write_gatt_char client u p = Raise e -> is_Exception e = true).



(** A device with a name and an address, and a peer on which everything
    succeeds. *)
Definition companion (address : string) (nm : string) : BLEDevice :=
  {| dev_name := Some (cps nm); dev_address := cps address; dev_uuids := None |}.

Definition quiet_peer (devices : list BLEDevice) (info : list byte) : Peer :=
  {| scan_answer := Ok devices;
     connect_answer := fun _ => Ok tt;
     services := [];
     notify_answer := fun _ => Ok tt;
     is_connected := true;
     disconnect_answer := Ok tt;
     gatt := accepting_client info |}.

(** A peer with one recognised device, the given answers to reads and
    writes and the given answer to every subscription. *)
Definition peer_with (client : BleakClient) (notify : result unit) : Peer :=
  {| scan_answer := Ok [companion "AA:02" "NocturneCompanion"];
     connect_answer := fun _ => Ok tt;
     services := [];
     notify_answer := fun _ => notify;
     is_connected := true;
     disconnect_answer := Ok tt;
     gatt := client |}.

(** A transport on which every read and every write is interrupted. *)
Definition interrupted_client : BleakClient :=
  {| read_gatt_char := fun _ => Raise KeyboardInterrupt;
     write_gatt_char := fun _ _ => Raise KeyboardInterrupt |}.

End NocturneSession.

Import NocturneSession.

(** * Properties *)

(** ** The model on concrete inputs *)

Section Examples.

Example decode_two_and_four_bytes :
  Utf8.decode [xc3; xa9; xf0; x9f; x98; x80] = Ok [233; 128512].
Proof. reflexivity. Qed.

Example decode_refuses_overlong : Utf8.decode [xc0; x80] = Raise UnicodeDecodeError.
Proof. reflexivity. Qed.

Example decode_refuses_surrogate :
  Utf8.decode [xed; xa0; x80] = Raise UnicodeDecodeError.
Proof. reflexivity. Qed.

Example encode_euro : Utf8.encode [8364] = Ok [xe2; x82; xac].
Proof. reflexivity. Qed.

Example loads_nested :
  Json.loads (text " [1, -0, 2.5e3, 'a\n', null, {'k': [], 'k': {}}] ")
  = Ok (PList [PInt 1; PInt 0; PFloat (FDec false 25 2); PStr [97; 10]; PNone;
               PDict [(cps "k", PDict [])]]).
Proof. reflexivity. Qed.

Example loads_surrogate_pair :
  Json.loads (text "'\ud83d\ude00 \ud83dA'")
  = Ok (PStr [128512; 32; 55357; 65]).
Proof. reflexivity. Qed.

Example loads_refuses :
  map Json.loads
      [text "01"; text "1."; text "[1,]"; text "{'a':1,}"; text "+1";
       text "'\x'"; text "{'a' 1}"; text ""; 65279 :: text "1"; [34; 31; 34]]
  = repeat (Raise JSONDecodeError) 10.
Proof. reflexivity. Qed.

Example loads_constants :
  map Json.loads [text "NaN"; text "-Infinity"; text "true"]
  = [Ok (PFloat FNaN); Ok (PFloat (FInf true)); Ok (PBool true)].
Proof. reflexivity. Qed.

(** [1e-400] and the halfway point below the least double round to zero;
    the next decimal above it does not. *)
Example float_zero_threshold :
  map float_is_zero
      [FDec false 1 (-400); FDec false 247032822920623272088 (-344);
       FDec false 247032822920623272089 (-344); FDec true 0 (-1)]
  = [true; true; false; true].
Proof. vm_compute. reflexivity. Qed.

Example dumps_seek_to_5000 :
  Json.dumps (seek_to_command 5000)
  = text "{'command': 'seek_to', 'value_ms': 5000}".
Proof. reflexivity. Qed.

Example int_examples :
  map Str.int [cps "007"; cps "-5"; cps "+5"; cps "1_000"; cps "1__0";
               cps "5_"; cps "x"; cps "1e3"]
  = [Ok 7%Z; Ok (-5)%Z; Ok 5%Z; Ok 1000%Z; Raise ValueError; Raise ValueError;
     Raise ValueError; Raise ValueError].
Proof. reflexivity. Qed.

Example split_example :
  Str.split (Str.lower (Str.strip (cps "  SEEK 5  x ")))
  = [cps "seek"; cps "5"; cps "x"].
Proof. reflexivity. Qed.

Example state_update_scenario :
  notification_handler STATE_CHAR_UUID
    (payload "{'type':'stateUpdate','track':'Song A','is_playing':true}")
  = ([Print StateHeader;
      Print (TrackArtist (PStr (cps "Song A")) (PStr (cps "Unknown")));
      Print (Playing (PBool true)); Print (Volume (PInt 0))], Ok tt).
Proof. reflexivity. Qed.

(** The escape of a lone surrogate is JSON; the track it gives cannot be
    written, and the report of the last clause follows the header. *)
Example state_update_surrogate :
  notification_handler STATE_CHAR_UUID
    (payload "{'type':'stateUpdate','track':'\ud800'}")
  = ([Print StateHeader; Print (HandlingError UnicodeEncodeError)], Ok tt).
Proof. reflexivity. Qed.

Example debug_surrogate :
  notification_handler DEBUG_CHAR_UUID (payload "{'message':'\udfff'}")
  = ([Print (HandlingError UnicodeEncodeError)], Ok tt).
Proof. reflexivity. Qed.

(** Inside an array the surrogate is escaped by [repr]. *)
Example state_update_surrogate_in_list :
  notification_handler STATE_CHAR_UUID
    (payload "{'type':'stateUpdate','track':['\ud800']}")
  = ([Print StateHeader;
      Print (TrackArtist (PList [PStr [55296]]) (PStr (cps "Unknown")));
      Print (Playing (PBool false)); Print (Volume (PInt 0))], Ok tt).
Proof. reflexivity. Qed.

Example other_state_message :
  notification_handler STATE_CHAR_UUID (payload "{'type':'queue'}")
  = ([Print StateHeader;
      Print (Document (PDict [(cps "type", PStr (cps "queue"))]))], Ok tt).
Proof. reflexivity. Qed.

Example unhashable_level :
  notification_handler DEBUG_CHAR_UUID (payload "{'level':[]}")
  = ([Print (HandlingError TypeError)], Ok tt).
Proof. reflexivity. Qed.

Example seek_without_number :
  interactive_step (accepting_client []) (cps "seek soon")
  = ([Print (LoopError ValueError)], Ok Continue).
Proof. reflexivity. Qed.

Example quit_stops_the_loop :
  writes (fst (interactive_mode (accepting_client [])
                 [cps "next"; cps "QUIT"; cps "play"]))
  = [(COMMAND_CHAR_UUID, payload "{'command': 'next'}")].
Proof. reflexivity. Qed.

End Examples.

(** ** The decoders *)

Section DecoderFacts.

Import Json.

Lemma skip_ws_length (s : pystr) : (List.length (skip_ws s) <= List.length s)%nat.
Proof.
  induction s as [|c r IH]; simpl; [lia|].
  destruct (is_ws c); simpl; lia.
Qed.

Lemma push_inv c r str rest :
  push c r = Some (str, rest) ->
  exists str', r = Some (str', rest) /\ str = c :: str'.
Proof.
  destruct r as [[s' r']|]; simpl; [|discriminate].
  intros H; inversion H; subst; eauto.
Qed.

Ltac break_scan H :=
  repeat match type of H with
         | context [if ?b then _ else _] => destruct b
         | context [match ?x with _ => _ end] =>
             match x with
             | push _ _ => fail 1
             | _ => destruct x
             end
         end.

Lemma scanstring_shorter (n : nat) :
  forall s str rest,
    (List.length s <= n)%nat ->
    scanstring s = Some (str, rest) -> (List.length rest < List.length s)%nat.
Proof.
  induction n as [|n IH]; intros s str rest Hn H.
  - destruct s; [discriminate|simpl in Hn; lia].
  - destruct s as [|c r]; [discriminate|].
    simpl in Hn. cbn [scanstring] in H.
    break_scan H; try discriminate;
      try (inversion H; subst; simpl; lia);
      apply push_inv in H; destruct H as (str' & H & _);
      apply IH in H; simpl in *; lia.
Qed.

Lemma span_digits_length (s : pystr) :
  (List.length (snd (span_digits s)) <= List.length s)%nat.
Proof.
  induction s as [|c r IH]; simpl; [lia|].
  destruct (digit_of c); simpl; [|lia].
  destruct (span_digits r); simpl in *; lia.
Qed.

Lemma strip_prefix_length (lit s r : pystr) :
  strip_prefix lit s = Some r ->
  (List.length r + List.length lit = List.length s)%nat.
Proof.
  revert s; induction lit as [|a lit IH]; intros s H; simpl in *.
  - inversion H; lia.
  - destruct s as [|b s']; [discriminate|].
    destruct (a =? b); [|discriminate].
    apply IH in H; simpl; lia.
Qed.

Lemma digit_of_nonnil c d ds : digit_of c = Some d -> d ds <> Nil.
Proof.
  unfold digit_of.
  repeat match goal with
         | |- context [if ?b then _ else _] => destruct b
         end; intros H; inversion H; subst; discriminate.
Qed.

Lemma some_digits_shorter s ds rest :
  some_digits s = Some (ds, rest) -> (List.length rest < List.length s)%nat.
Proof.
  unfold some_digits. destruct s as [|c r]; [discriminate|].
  pose proof (span_digits_length r) as Hl. simpl.
  destruct (digit_of c) as [u|] eqn:Hc; [|discriminate].
  destruct (span_digits r) as [d r']; simpl in *.
  pose proof (digit_of_nonnil c u d Hc) as Hn.
  destruct (u d); [congruence| | | | | | | | | |];
    intros H; inversion H; subst; lia.
Qed.

Lemma match_digits_shorter s ds rest :
  match_digits s = Some (ds, rest) -> (List.length rest < List.length s)%nat.
Proof.
  unfold match_digits. destruct s as [|c r]; [discriminate|].
  destruct (c =? 48).
  - intros H; inversion H; subst; simpl; lia.
  - intros H. apply some_digits_shorter in H. exact H.
Qed.

Lemma match_integer_shorter s neg ds rest :
  match_integer s = Some (neg, ds, rest) ->
  (List.length rest < List.length s)%nat.
Proof.
  unfold match_integer.
  destruct s as [|c r]; [discriminate|].
  destruct (c =? 45).
  - destruct (match_digits r) as [[d r']|] eqn:Hd; [|discriminate].
    apply match_digits_shorter in Hd.
    intros H; inversion H; subst; simpl; lia.
  - destruct (match_digits (c :: r)) as [[d r']|] eqn:Hd; [|discriminate].
    apply match_digits_shorter in Hd.
    intros H; inversion H; subst; simpl in *; lia.
Qed.

Lemma match_frac_length s ds rest :
  match_frac s = Some (ds, rest) -> (List.length rest <= List.length s)%nat.
Proof.
  unfold match_frac. destruct s as [|c r]; [discriminate|].
  destruct (c =? 46); [|discriminate].
  intros H; apply some_digits_shorter in H; simpl; lia.
Qed.

Lemma match_exp_length s e rest :
  match_exp s = Some (e, rest) -> (List.length rest <= List.length s)%nat.
Proof.
  unfold match_exp. destruct s as [|c r]; [discriminate|].
  destruct ((c =? 101) || (c =? 69)); [|discriminate].
  destruct r as [|sg r']; [discriminate|].
  destruct (sg =? 45); [|destruct (sg =? 43)];
    match goal with
    | |- context [some_digits ?t] =>
        destruct (some_digits t) as [[d r1]|] eqn:Hd; [|discriminate];
        apply some_digits_shorter in Hd;
        intros H; inversion H; subst; simpl in *; lia
    end.
Qed.

Lemma match_number_shorter s v rest :
  match_number s = Some (v, rest) -> (List.length rest < List.length s)%nat.
Proof.
  unfold match_number.
  destruct (match_integer s) as [[[neg ds] r1]|] eqn:Hi; [|discriminate].
  apply match_integer_shorter in Hi.
  destruct (match_frac r1) as [[fs r2]|] eqn:Hf.
  - apply match_frac_length in Hf.
    destruct (match_exp r2) as [[e r3]|] eqn:He; intros H; inversion H; subst;
      [apply match_exp_length in He|]; lia.
  - destruct (match_exp r1) as [[e r3]|] eqn:He; intros H; inversion H; subst;
      [apply match_exp_length in He|]; lia.
Qed.

Lemma scan_atom_shorter s v rest :
  scan_atom s = Scanned v rest -> (List.length rest < List.length s)%nat.
Proof.
  unfold scan_atom.
  repeat match goal with
         | |- context [strip_prefix ?lit s] =>
             let H := fresh "H" in
             destruct (strip_prefix lit s) eqn:H;
             [apply strip_prefix_length in H; simpl in H;
              intros E; inversion E; subst; lia|]
         | |- context [match_number s] =>
             let H := fresh "H" in
             destruct (match_number s) as [[? ?]|] eqn:H;
             [apply match_number_shorter in H;
              intros E; inversion E; subst; lia|]
         end.
  discriminate.
Qed.

Lemma scan_atom_not_exhausted s : scan_atom s <> Exhausted.
Proof.
  unfold scan_atom.
  repeat match goal with
         | |- context [match ?x with _ => _ end] => destruct x as [[? ?]|] || destruct x
         end; discriminate.
Qed.

(** Whatever is scanned is taken from the front of the text: the rest is
    strictly shorter. *)
Lemma scan_shorter (fuel : nat) :
  (forall s v rest,
      scan_once fuel s = Scanned v rest ->
      (List.length rest < List.length s)%nat) /\
  (forall s acc v rest,
      object_loop fuel s acc = Scanned v rest ->
      (List.length rest < List.length s)%nat) /\
  (forall s acc v rest,
      array_loop fuel s acc = Scanned v rest ->
      (List.length rest < List.length s)%nat).
Proof.
  induction fuel as [|fuel (IHs & IHo & IHa)].
  - repeat split; intros; discriminate.
  - repeat split.
    + intros s v rest H. destruct s as [|c r]; [discriminate|].
      cbn [scan_once] in H.
      destruct (c =? 34).
      { destruct (scanstring r) as [[str r']|] eqn:Hs; [|discriminate].
        apply (scanstring_shorter _ _ _ _ (le_n _)) in Hs.
        inversion H; subst; simpl; lia. }
      destruct (c =? 123).
      { pose proof (skip_ws_length r) as Hw.
        destruct (skip_ws r) as [|c1 r1]; [discriminate|]. simpl in Hw.
        destruct (c1 =? 125); [inversion H; subst; simpl; lia|].
        destruct (c1 =? 34); [|discriminate].
        apply IHo in H. simpl; lia. }
      destruct (c =? 91).
      { pose proof (skip_ws_length r) as Hw.
        destruct (skip_ws r) as [|c1 r1]; [discriminate|]. simpl in Hw.
        destruct (c1 =? 93); [inversion H; subst; simpl; lia|].
        apply IHa in H. simpl in *; lia. }
      apply scan_atom_shorter in H. exact H.
    + intros s acc v rest H. cbn [object_loop] in H.
      destruct (scanstring s) as [[key r1]|] eqn:Hs; [|discriminate].
      apply (scanstring_shorter _ _ _ _ (le_n _)) in Hs.
      pose proof (skip_ws_length r1) as Hw1.
      destruct (skip_ws r1) as [|c r2]; [discriminate|]. simpl in Hw1.
      destruct (c =? 58); [|discriminate].
      pose proof (skip_ws_length r2) as Hw2.
      destruct (scan_once fuel (skip_ws r2)) as [v' r3| |] eqn:Hv;
        try discriminate.
      apply IHs in Hv.
      pose proof (skip_ws_length r3) as Hw3.
      destruct (skip_ws r3) as [|c' r4]; [discriminate|]. simpl in Hw3.
      destruct (c' =? 125); [inversion H; subst; lia|].
      destruct (c' =? 44); [|discriminate].
      pose proof (skip_ws_length r4) as Hw4.
      destruct (skip_ws r4) as [|q r5]; [discriminate|]. simpl in Hw4.
      destruct (q =? 34); [|discriminate].
      apply IHo in H. lia.
    + intros s acc v rest H. cbn [array_loop] in H.
      destruct (scan_once fuel s) as [v' r1| |] eqn:Hv; try discriminate.
      apply IHs in Hv.
      pose proof (skip_ws_length r1) as Hw1.
      destruct (skip_ws r1) as [|c r2]; [discriminate|]. simpl in Hw1.
      destruct (c =? 93); [inversion H; subst; lia|].
      destruct (c =? 44); [|discriminate].
      pose proof (skip_ws_length r2) as Hw2.
      apply IHa in H. lia.
Qed.

(** A budget above twice the length of the text is never used up. *)
Lemma scan_budget (fuel : nat) :
  (forall s, (2 * List.length s < fuel)%nat -> scan_once fuel s <> Exhausted) /\
  (forall s acc,
      (2 * List.length s + 1 < fuel)%nat -> object_loop fuel s acc <> Exhausted) /\
  (forall s acc,
      (2 * List.length s + 1 < fuel)%nat -> array_loop fuel s acc <> Exhausted).
Proof.
  induction fuel as [|fuel (IHs & IHo & IHa)].
  - repeat split; intros; lia.
  - repeat split.
    + intros s Hf. destruct s as [|c r]; [discriminate|].
      cbn [scan_once]. simpl in Hf.
      destruct (c =? 34).
      { destruct (scanstring r) as [[str r']|]; discriminate. }
      destruct (c =? 123).
      { pose proof (skip_ws_length r) as Hw.
        destruct (skip_ws r) as [|c1 r1]; [discriminate|]. simpl in Hw.
        destruct (c1 =? 125); [discriminate|].
        destruct (c1 =? 34); [|discriminate].
        apply IHo. lia. }
      destruct (c =? 91).
      { pose proof (skip_ws_length r) as Hw.
        destruct (skip_ws r) as [|c1 r1]; [discriminate|]. simpl in Hw.
        destruct (c1 =? 93); [discriminate|].
        apply IHa. simpl; lia. }
      apply scan_atom_not_exhausted.
    + intros s acc Hf. cbn [object_loop].
      destruct (scanstring s) as [[key r1]|] eqn:Hs; [|discriminate].
      apply (scanstring_shorter _ _ _ _ (le_n _)) in Hs.
      pose proof (skip_ws_length r1) as Hw1.
      destruct (skip_ws r1) as [|c r2]; [discriminate|]. simpl in Hw1.
      destruct (c =? 58); [|discriminate].
      pose proof (skip_ws_length r2) as Hw2.
      destruct (scan_once fuel (skip_ws r2)) as [v' r3| |] eqn:Hv;
        [|discriminate|exfalso; revert Hv; apply IHs; lia].
      apply (proj1 (scan_shorter fuel)) in Hv.
      pose proof (skip_ws_length r3) as Hw3.
      destruct (skip_ws r3) as [|c' r4]; [discriminate|]. simpl in Hw3.
      destruct (c' =? 125); [discriminate|].
      destruct (c' =? 44); [|discriminate].
      pose proof (skip_ws_length r4) as Hw4.
      destruct (skip_ws r4) as [|q r5]; [discriminate|]. simpl in Hw4.
      destruct (q =? 34); [|discriminate].
      apply IHo. lia.
    + intros s acc Hf. cbn [array_loop].
      destruct (scan_once fuel s) as [v' r1| |] eqn:Hv;
        [|discriminate|exfalso; revert Hv; apply IHs; lia].
      apply (proj1 (scan_shorter fuel)) in Hv.
      pose proof (skip_ws_length r1) as Hw1.
      destruct (skip_ws r1) as [|c r2]; [discriminate|]. simpl in Hw1.
      destruct (c =? 93); [discriminate|].
      destruct (c =? 44); [|discriminate].
      pose proof (skip_ws_length r2) as Hw2.
      apply IHa. lia.
Qed.

(** [json.loads] returns a value or raises [JSONDecodeError], nothing
    else. *)
Lemma loads_budget (s : pystr) (e : exn) :
  loads s = Raise e -> e = JSONDecodeError.
Proof.
  unfold loads.
  assert (Hb : scan_once (2 + 2 * List.length s) (skip_ws s) <> Exhausted).
  { apply (proj1 (scan_budget _)). pose proof (skip_ws_length s). lia. }
  destruct (scan_once (2 + 2 * List.length s) (skip_ws s)) as [v rest| |];
    [|clear Hb|congruence].
  - destruct (skip_ws rest);
      repeat match goal with
             | |- context [match ?x with _ => _ end] => destruct x
             end; intros H; inversion H; reflexivity.
  - repeat match goal with
           | |- context [match ?x with _ => _ end] => destruct x
           end; intros H; inversion H; reflexivity.
Qed.

Lemma decode_raises (bs : list byte) (e : exn) :
  Utf8.decode bs = Raise e -> e = UnicodeDecodeError.
Proof.
  remember (List.length bs) as n eqn:Hn.
  assert (Hle : (List.length bs <= n)%nat) by lia. clear Hn.
  revert bs Hle. induction n as [|n IH]; intros bs Hle H.
  - destruct bs; [discriminate|simpl in Hle; lia].
  - destruct bs as [|b0 r0]; [discriminate|].
    simpl in Hle. cbn [Utf8.decode] in H. cbv zeta in H.
    repeat match type of H with
           | context [if ?b then _ else _] => destruct b
           | context [match ?x with _ :: _ => _ | _ => _ end] => destruct x
           | context [bind (Utf8.decode ?r) _] =>
               let E := fresh "E" in
               destruct (Utf8.decode r) eqn:E; simpl in H;
               [discriminate|inversion H; subst; apply IH in E;
                             [exact E|simpl in *; lia]]
           end; simpl in H; congruence.
Qed.

End DecoderFacts.

(** ** The notification handler, branch by branch *)

Section HandlerFacts.

Lemma loads_utf8_raises (data : list byte) (e : exn) :
  loads_utf8 data = Raise e ->
  (Utf8.decode data = Raise UnicodeDecodeError /\ e = UnicodeDecodeError) \/
  (exists text, Utf8.decode data = Ok text /\
                Json.loads text = Raise JSONDecodeError /\ e = JSONDecodeError).
Proof.
  unfold loads_utf8. destruct (Utf8.decode data) as [text|e'] eqn:Hd; simpl.
  - intros H. pose proof (loads_budget _ _ H); subst. right; eauto.
  - intros H; inversion H; subst.
    pose proof (decode_raises _ _ Hd); subst. left; auto.
Qed.

Lemma handler_undecodable (char_uuid : string) (data : list byte) (e : exn) :
  Utf8.decode data = Raise e ->
  notification_handler char_uuid data
  = ([Print (HandlingError UnicodeDecodeError)], Ok tt).
Proof.
  intros H. pose proof (decode_raises _ _ H); subst.
  unfold notification_handler, loads_utf8. rewrite H. reflexivity.
Qed.

Lemma handler_unparsable (char_uuid : string) (data : list byte) text (e : exn) :
  Utf8.decode data = Ok text ->
  Json.loads text = Raise e ->
  notification_handler char_uuid data = ([Print (RawData (Utf8.hex data))], Ok tt).
Proof.
  intros Hd H. pose proof (loads_budget _ _ H); subst.
  unfold notification_handler, loads_utf8. rewrite Hd. simpl bind.
  rewrite H. reflexivity.
Qed.

(** A state update: the header, then the three lines of the fields, up to
    the first one that the console cannot write. *)
Lemma handler_state_update (data : list byte) (d : pydict) :
  loads_utf8 data = Ok (PDict d) ->
  eq_str (dict_get d (cps "type") PNone) (cps "stateUpdate") = true ->
  let names := TrackArtist (dict_get d (cps "track") (PStr (cps "Unknown")))
                           (dict_get d (cps "artist") (PStr (cps "Unknown"))) in
  let playing := Playing (dict_get d (cps "is_playing") (PBool false)) in
  let volume := Volume (dict_get d (cps "volume_percent") (PInt 0)) in
  let failed := Print (HandlingError UnicodeEncodeError) in
  notification_handler STATE_CHAR_UUID data
  = (if encodable names then
       if encodable playing then
         if encodable volume then
           [Print StateHeader; Print names; Print playing; Print volume]
         else [Print StateHeader; Print names; Print playing; failed]
       else [Print StateHeader; Print names; failed]
     else [Print StateHeader; failed], Ok tt).
Proof.
  intros Hl Ht names playing volume failed. unfold notification_handler.
  rewrite Hl. change (String.eqb STATE_CHAR_UUID STATE_CHAR_UUID) with true.
  cbn [lift seq getattr_get app]. rewrite Ht.
  fold names playing volume. unfold print at 2 3 4.
  destruct (encodable names); [|reflexivity].
  destruct (encodable playing); [|reflexivity].
  destruct (encodable volume); reflexivity.
Qed.

Lemma handler_state_other (data : list byte) (d : pydict) :
  loads_utf8 data = Ok (PDict d) ->
  eq_str (dict_get d (cps "type") PNone) (cps "stateUpdate") = false ->
  notification_handler STATE_CHAR_UUID data
  = ([Print StateHeader; Print (Document (PDict d))], Ok tt).
Proof.
  intros Hl Ht. unfold notification_handler. rewrite Hl.
  change (String.eqb STATE_CHAR_UUID STATE_CHAR_UUID) with true.
  cbn [lift seq print encodable getattr_get try_except app]. rewrite Ht. reflexivity.
Qed.

Lemma truthy_get_getitem (d : pydict) (k : pystr) :
  truthy (dict_get d k PNone) = true -> getitem d k = Ok (dict_get d k PNone).
Proof.
  unfold dict_get, getitem. destruct (dict_lookup d k); [reflexivity|discriminate].
Qed.

(** A debug message: the line, then the data when it is truthy; nothing
    but the error report when the console cannot write the line. *)
Lemma handler_debug_line (data : list byte) (d : pydict) (symbol : pystr) :
  loads_utf8 data = Ok (PDict d) ->
  level_symbols_get (dict_get d (cps "level") (PStr (cps "INFO"))) fallback_symbol
  = Ok symbol ->
  let line := LogLine symbol (dict_get d (cps "type") (PStr (cps "LOG")))
                      (dict_get d (cps "message") (PStr [])) in
  notification_handler DEBUG_CHAR_UUID data
  = (if encodable line then
       Print line :: (if truthy (dict_get d (cps "data") PNone)
                      then [Print (LogData (dict_get d (cps "data") PNone))]
                      else [])
     else [Print (HandlingError UnicodeEncodeError)], Ok tt).
Proof.
  intros Hl Hs line. unfold notification_handler. rewrite Hl.
  change (String.eqb DEBUG_CHAR_UUID STATE_CHAR_UUID) with false.
  change (String.eqb DEBUG_CHAR_UUID DEBUG_CHAR_UUID) with true.
  cbn [lift seq getattr_get app]. cbv zeta. rewrite Hs.
  cbn [lift seq getattr_get app]. fold line. unfold print at 1.
  destruct (encodable line); [|reflexivity].
  destruct (truthy (dict_get d (cps "data") PNone)) eqn:Ht.
  - rewrite (truthy_get_getitem _ _ Ht). reflexivity.
  - reflexivity.
Qed.

Lemma handler_debug (data : list byte) (d : pydict) (symbol : pystr) :
  loads_utf8 data = Ok (PDict d) ->
  level_symbols_get (dict_get d (cps "level") (PStr (cps "INFO"))) fallback_symbol
  = Ok symbol ->
  str_encodes (dict_get d (cps "type") (PStr (cps "LOG"))) = true ->
  str_encodes (dict_get d (cps "message") (PStr [])) = true ->
  notification_handler DEBUG_CHAR_UUID data
  = (Print (LogLine symbol (dict_get d (cps "type") (PStr (cps "LOG")))
                    (dict_get d (cps "message") (PStr [])))
     :: (if truthy (dict_get d (cps "data") PNone)
         then [Print (LogData (dict_get d (cps "data") PNone))]
         else []), Ok tt).
Proof.
  intros Hl Hs Ht Hm. rewrite (handler_debug_line data d symbol Hl Hs).
  cbn [encodable]. rewrite Ht, Hm. reflexivity.
Qed.

Lemma handler_debug_unhashable (data : list byte) (d : pydict) (e : exn) :
  loads_utf8 data = Ok (PDict d) ->
  level_symbols_get (dict_get d (cps "level") (PStr (cps "INFO"))) fallback_symbol
  = Raise e ->
  notification_handler DEBUG_CHAR_UUID data
  = ([Print (HandlingError TypeError)], Ok tt).
Proof.
  intros Hl Hs.
  assert (e = TypeError); [|subst].
  { revert Hs. unfold level_symbols_get.
    repeat match goal with
           | |- context [if ?b then _ else _] => destruct b
           | |- context [match ?x with _ => _ end] => destruct x
           end; intros H; inversion H; reflexivity. }
  unfold notification_handler. rewrite Hl.
  change (String.eqb DEBUG_CHAR_UUID STATE_CHAR_UUID) with false.
  change (String.eqb DEBUG_CHAR_UUID DEBUG_CHAR_UUID) with true.
  cbn [lift seq print encodable getattr_get try_except app]. cbv zeta. rewrite Hs.
  reflexivity.
Qed.

Lemma handler_state_not_object (data : list byte) (v : pyval) :
  loads_utf8 data = Ok v -> is_dict v = false ->
  notification_handler STATE_CHAR_UUID data
  = ([Print StateHeader; Print (HandlingError AttributeError)], Ok tt).
Proof.
  intros Hl Hv. unfold notification_handler. rewrite Hl.
  change (String.eqb STATE_CHAR_UUID STATE_CHAR_UUID) with true.
  destruct v; try discriminate; reflexivity.
Qed.

Lemma handler_debug_not_object (data : list byte) (v : pyval) :
  loads_utf8 data = Ok v -> is_dict v = false ->
  notification_handler DEBUG_CHAR_UUID data
  = ([Print (HandlingError AttributeError)], Ok tt).
Proof.
  intros Hl Hv. unfold notification_handler. rewrite Hl.
  change (String.eqb DEBUG_CHAR_UUID STATE_CHAR_UUID) with false.
  change (String.eqb DEBUG_CHAR_UUID DEBUG_CHAR_UUID) with true.
  destruct v; try discriminate; reflexivity.
Qed.

Lemma handler_other_role (char_uuid : string) (data : list byte) (v : pyval) :
  loads_utf8 data = Ok v ->
  String.eqb char_uuid STATE_CHAR_UUID = false ->
  String.eqb char_uuid DEBUG_CHAR_UUID = false ->
  notification_handler char_uuid data = ([], Ok tt).
Proof.
  intros Hl Hs Hd. unfold notification_handler. rewrite Hl, Hs, Hd.
  reflexivity.
Qed.

End HandlerFacts.

(** ** Claims on the notification handler *)

Section HandlerClaims.

(** C1.  The bytes DE AD BE EF are not UTF-8: [data.decode] raises
    [UnicodeDecodeError], which the clause for [json.JSONDecodeError] does
    not catch.  On the debug source the handler returns normally, but all
    it prints is the error report of the last clause, which does not hold
    the bytes; the raw line with their hexadecimal form [deadbeef], which
    the first clause prints for text that is not JSON, is not printed. *)
Theorem deadbeef_on_debug_source :
  let data := [xde; xad; xbe; xef] in
  Utf8.decode data = Raise UnicodeDecodeError /\
  Utf8.hex data = cps "deadbeef" /\
  notification_handler (resolve DebugSource) data
  = ([Print (HandlingError UnicodeDecodeError)], Ok tt) /\
  notification_handler (resolve DebugSource) (payload "not json")
  = ([Print (RawData (Utf8.hex (payload "not json")))], Ok tt).
Proof. cbv zeta. repeat split; reflexivity. Qed.

Lemma dict_get_present (d : pydict) (k : pystr) (v default : pyval) :
  dict_lookup d k = Some v -> dict_get d k default = v.
Proof. unfold dict_get; intros ->; reflexivity. Qed.

Lemma dict_get_absent (d : pydict) (k : pystr) (default : pyval) :
  dict_lookup d k = None -> dict_get d k default = default.
Proof. unfold dict_get; intros ->; reflexivity. Qed.



(** C6, as the claim has it, fails: a debug message whose level is the
    unknown name [TRACE] is shown with the marker kept for unknown levels,
    which is the marker of [VERBOSE] and not that of [INFO]. *)
Lemma unknown_level_is_not_info :
  notification_handler (resolve DebugSource)
    (payload "{'level':'TRACE','message':'m'}")
  = ([Print (LogLine fallback_symbol (PStr (cps "LOG")) (PStr (cps "m")))],
     Ok tt) /\
  fallback_symbol = symbol_of_level "VERBOSE" /\
  fallback_symbol <> symbol_of_level "INFO".
Proof.
  repeat split. vm_compute. discriminate.
Qed.

Lemma pystr_eqb_sym (a b : pystr) : pystr_eqb a b = pystr_eqb b a.
Proof.
  revert b; induction a as [|x a IH]; intros [|y b]; simpl; try reflexivity.
  rewrite N.eqb_sym, IH. reflexivity.
Qed.

Lemma level_symbols_get_unknown (v : pyval) :
  hashable v = true ->
  (forall name, In name level_names -> eq_str v name = false) ->
  level_symbols_get v fallback_symbol = Ok fallback_symbol.
Proof.
  intros Hh Hn. unfold level_symbols_get. rewrite Hh.
  destruct v; try reflexivity.
  assert (Hf : forall l,
             (forall kv, In kv l -> pystr_eqb (fst kv) s = false) ->
             find (fun kv : pystr * pystr => pystr_eqb (fst kv) s) l = None).
  { induction l as [|kv l IH]; intros Hk; [reflexivity|].
    simpl. rewrite (Hk kv (or_introl eq_refl)). apply IH.
    intros kv' Hin. apply Hk. right; exact Hin. }
  rewrite Hf; [reflexivity|].
  intros kv Hin. rewrite pystr_eqb_sym. apply (Hn (fst kv)).
  unfold level_names. apply in_map. exact Hin.
Qed.

(** C6, amended.  A debug message without a [level] is shown as [INFO].
    One whose [level] is a hashable value other than the five names is
    shown with the marker kept for unknown levels, that of [VERBOSE].
    This holds of every message whose line the console can write: its
    [type] and its [message], when they are strings, hold no surrogate. *)
Theorem debug_level_fallback (data : list byte) (d : pydict) :
  loads_utf8 data = Ok (PDict d) ->
  str_encodes (dict_get d (cps "type") (PStr (cps "LOG"))) = true ->
  str_encodes (dict_get d (cps "message") (PStr [])) = true ->
  (dict_lookup d (cps "level") = None ->
   exists more,
     notification_handler (resolve DebugSource) data
     = (Print (LogLine (symbol_of_level "INFO")
                       (dict_get d (cps "type") (PStr (cps "LOG")))
                       (dict_get d (cps "message") (PStr []))) :: more,
        Ok tt)) /\
  (forall v,
      dict_lookup d (cps "level") = Some v ->
      hashable v = true ->
      (forall name, In name level_names -> eq_str v name = false) ->
      exists more,
        notification_handler (resolve DebugSource) data
        = (Print (LogLine (symbol_of_level "VERBOSE")
                          (dict_get d (cps "type") (PStr (cps "LOG")))
                          (dict_get d (cps "message") (PStr []))) :: more,
           Ok tt)).
Proof.
  intros Hl Ht Hm. split.
  - intros Ha. eexists. apply handler_debug; [exact Hl| |exact Ht|exact Hm].
    rewrite (dict_get_absent _ _ _ Ha). reflexivity.
  - intros v Hv Hh Hn. eexists.
    apply handler_debug; [exact Hl| |exact Ht|exact Hm].
    rewrite (dict_get_present _ _ _ _ Hv).
    apply level_symbols_get_unknown; assumption.
Qed.

Lemma debug_level_fallback_witness :
  exists more,
    notification_handler (resolve DebugSource)
      (payload "{'level':'TRACE','message':'m'}")
    = (Print (LogLine (symbol_of_level "VERBOSE") (PStr (cps "LOG"))
                      (PStr (cps "m"))) :: more, Ok tt).
Proof.
  refine (proj2 (debug_level_fallback
                   (payload "{'level':'TRACE','message':'m'}")
                   [(cps "level", PStr (cps "TRACE"));
                    (cps "message", PStr (cps "m"))] eq_refl eq_refl eq_refl)
                (PStr (cps "TRACE")) eq_refl eq_refl _).
  intros name Hn. simpl in Hn.
  repeat (destruct Hn as [<-|Hn]; [reflexivity|]). destruct Hn.
Defined.

(** C9.  The [data] of a debug message is shown only when it is truthy: no
    message is shown with a [data] that is absent or falsy.  Of the
    messages whose line the console can write, one whose [data] is an empty
    object, an empty array, an empty string, zero, false or null is shown
    as a message without [data], and one whose [data] is truthy is shown
    with it.  And a message with a falsy [data] is handled as any message
    with the same [level], [type] and [message] and no [data] is. *)
Theorem debug_data_needs_truthy (data : list byte) (d : pydict) :
  loads_utf8 data = Ok (PDict d) ->
  (forall x,
      In (Print (LogData x)) (fst (notification_handler (resolve DebugSource) data)) ->
      dict_lookup d (cps "data") = Some x /\ truthy x = true) /\
  (forall symbol,
      level_symbols_get (dict_get d (cps "level") (PStr (cps "INFO")))
                        fallback_symbol = Ok symbol ->
      str_encodes (dict_get d (cps "type") (PStr (cps "LOG"))) = true ->
      str_encodes (dict_get d (cps "message") (PStr [])) = true ->
      let line := Print (LogLine symbol
                                 (dict_get d (cps "type") (PStr (cps "LOG")))
                                 (dict_get d (cps "message") (PStr []))) in
      (dict_lookup d (cps "data") = None ->
       notification_handler (resolve DebugSource) data = ([line], Ok tt)) /\
      (forall v, dict_lookup d (cps "data") = Some v -> In v empty_values ->
                 notification_handler (resolve DebugSource) data
                 = ([line], Ok tt)) /\
      (forall v, dict_lookup d (cps "data") = Some v -> truthy v = false ->
                 notification_handler (resolve DebugSource) data
                 = ([line], Ok tt)) /\
      (forall v, dict_lookup d (cps "data") = Some v -> truthy v = true ->
                 notification_handler (resolve DebugSource) data
                 = ([line; Print (LogData v)], Ok tt))) /\
  (forall data' d' v,
      loads_utf8 data' = Ok (PDict d') ->
      (forall k, In k [cps "level"; cps "type"; cps "message"] ->
                 dict_lookup d' k = dict_lookup d k) ->
      dict_lookup d' (cps "data") = None ->
      dict_lookup d (cps "data") = Some v -> truthy v = false ->
      notification_handler (resolve DebugSource) data
      = notification_handler (resolve DebugSource) data').
Proof.
  intros Hl. split; [|split].
  - intros x Hin. change (resolve DebugSource) with DEBUG_CHAR_UUID in Hin.
    destruct (level_symbols_get (dict_get d (cps "level") (PStr (cps "INFO")))
                                fallback_symbol) as [symbol|e] eqn:Hs.
    + rewrite (handler_debug_line data d symbol Hl Hs) in Hin.
      cbv zeta in Hin. cbn [fst] in Hin.
      match type of Hin with
      | context [if encodable ?l then _ else _] => destruct (encodable l)
      end; [|destruct Hin as [Hin|[]]; discriminate Hin].
      destruct Hin as [Hin|Hin]; [discriminate Hin|].
      unfold dict_get in Hin at 1 2.
      destruct (dict_lookup d (cps "data")) as [v|]; [|destruct Hin].
      destruct (truthy v) eqn:Ht; [|destruct Hin].
      destruct Hin as [Hin|[]]. inversion Hin; subst. split; [reflexivity|exact Ht].
    + rewrite (handler_debug_unhashable data d e Hl Hs) in Hin.
      destruct Hin as [Hin|[]]. discriminate Hin.
  - intros symbol Hs Hty Hmsg line.
    pose proof (handler_debug data d symbol Hl Hs Hty Hmsg) as H. fold line in H.
    assert (Hf : forall v, dict_lookup d (cps "data") = Some v ->
                           truthy v = false ->
                           notification_handler (resolve DebugSource) data
                           = ([line], Ok tt)).
    { intros v Hv Ht. rewrite (dict_get_present _ _ _ _ Hv), Ht in H. exact H. }
    repeat split.
    + intros Ha. rewrite (dict_get_absent _ _ _ Ha) in H. exact H.
    + intros v Hv Hin. apply (Hf v Hv).
      unfold empty_values in Hin. simpl in Hin.
      repeat (destruct Hin as [<-|Hin]; [reflexivity|]). destruct Hin.
    + exact Hf.
    + intros v Hv Ht. rewrite (dict_get_present _ _ _ _ Hv), Ht in H. exact H.
  - intros data' d' v Hl' Hsame Hnone Hv Hf.
    change (resolve DebugSource) with DEBUG_CHAR_UUID.
    assert (Hg : forall k default,
               In k [cps "level"; cps "type"; cps "message"] ->
               dict_get d' k default = dict_get d k default).
    { intros k default Hk. unfold dict_get. rewrite (Hsame k Hk). reflexivity. }
    assert (Hd : truthy (dict_get d (cps "data") PNone) = false)
      by (rewrite (dict_get_present _ _ _ _ Hv); exact Hf).
    assert (Hd' : truthy (dict_get d' (cps "data") PNone) = false)
      by (rewrite (dict_get_absent _ _ _ Hnone); reflexivity).
    destruct (level_symbols_get (dict_get d (cps "level") (PStr (cps "INFO")))
                                fallback_symbol) as [symbol|e] eqn:Hs.
    + assert (Hs' : level_symbols_get
                      (dict_get d' (cps "level") (PStr (cps "INFO")))
                      fallback_symbol = Ok symbol)
        by (rewrite Hg; [exact Hs|cbn [In]; auto]).
      rewrite (handler_debug_line data d symbol Hl Hs).
      rewrite (handler_debug_line data' d' symbol Hl' Hs').
      cbv zeta. rewrite Hd, Hd'.
      rewrite !Hg by (cbn [In]; auto). reflexivity.
    + assert (Hs' : level_symbols_get
                      (dict_get d' (cps "level") (PStr (cps "INFO")))
                      fallback_symbol = Raise e)
        by (rewrite Hg; [exact Hs|cbn [In]; auto]).
      rewrite (handler_debug_unhashable data d e Hl Hs).
      rewrite (handler_debug_unhashable data' d' e Hl' Hs'). reflexivity.
Qed.

(** A message with [data] the empty object. *)
Lemma debug_data_needs_truthy_witness :
  notification_handler (resolve DebugSource)
    (payload "{'message':'m','data':{}}")
  = ([Print (LogLine (symbol_of_level "INFO") (PStr (cps "LOG"))
                     (PStr (cps "m")))], Ok tt).
Proof.
  refine (proj1 (proj2 (proj1 (proj2 (debug_data_needs_truthy
                                        (payload "{'message':'m','data':{}}")
                                        [(cps "message", PStr (cps "m"));
                                         (cps "data", PDict [])]
                                        eq_refl))
                              (symbol_of_level "INFO") eq_refl eq_refl eq_refl))
                (PDict []) eq_refl _).
  left; reflexivity.
Defined.

(** C10.  The handler always returns to its caller: each exception of its
    body is caught by one of the two clauses.  A payload that is JSON but
    not an object reaches the last clause: on the state source the header
    is followed by the error report, on the debug source the error report
    stands alone, and neither a message, a document nor a raw line is
    shown. *)
Theorem handler_total :
  (forall char_uuid data, snd (notification_handler char_uuid data) = Ok tt) /\
  (forall data v,
      loads_utf8 data = Ok v -> is_dict v = false ->
      notification_handler (resolve StateSource) data
      = ([Print StateHeader; Print (HandlingError AttributeError)], Ok tt) /\
      notification_handler (resolve DebugSource) data
      = ([Print (HandlingError AttributeError)], Ok tt)).
Proof.
  split.
  - intros char_uuid data.
    destruct (loads_utf8 data) as [v|e] eqn:Hl.
    + destruct (String.eqb char_uuid STATE_CHAR_UUID) eqn:Hs.
      { apply String.eqb_eq in Hs; subst.
        destruct (is_dict v) eqn:Hv.
        - destruct v; try discriminate.
          destruct (eq_str (dict_get d (cps "type") PNone) (cps "stateUpdate"))
            eqn:Ht.
          + rewrite (handler_state_update _ _ Hl Ht). reflexivity.
          + rewrite (handler_state_other _ _ Hl Ht). reflexivity.
        - rewrite (handler_state_not_object _ _ Hl Hv). reflexivity. }
      destruct (String.eqb char_uuid DEBUG_CHAR_UUID) eqn:Hd.
      { apply String.eqb_eq in Hd; subst.
        destruct (is_dict v) eqn:Hv.
        - destruct v; try discriminate.
          destruct (level_symbols_get
                      (dict_get d (cps "level") (PStr (cps "INFO")))
                      fallback_symbol) as [symbol|e] eqn:Hg.
          + rewrite (handler_debug_line _ _ _ Hl Hg). reflexivity.
          + rewrite (handler_debug_unhashable _ _ _ Hl Hg). reflexivity.
        - rewrite (handler_debug_not_object _ _ Hl Hv). reflexivity. }
      rewrite (handler_other_role _ _ _ Hl Hs Hd). reflexivity.
    + destruct (loads_utf8_raises _ _ Hl) as [[Hu _]|(text & Hu & Hj & _)].
      * rewrite (handler_undecodable _ _ _ Hu). reflexivity.
      * rewrite (handler_unparsable _ _ _ _ Hu Hj). reflexivity.
  - intros data v Hl Hv. split.
    + apply (handler_state_not_object _ _ Hl Hv).
    + apply (handler_debug_not_object _ _ Hl Hv).
Qed.

(** The number 123 on both sources. *)
Lemma handler_total_witness :
  notification_handler (resolve StateSource) (payload "123")
  = ([Print StateHeader; Print (HandlingError AttributeError)], Ok tt) /\
  notification_handler (resolve DebugSource) (payload "123")
  = ([Print (HandlingError AttributeError)], Ok tt).
Proof.
  exact (proj2 handler_total (payload "123") (PInt 123) eq_refl eq_refl).
Defined.

End HandlerClaims.

(** ** Decimal numerals *)

Section NumeralFacts.

Import Json.

Lemma numeric_plain (c : N) :
  numeric c ->
  c < 128 /\ Str.isspace c = false /\ (c =? 95) = false /\
  ((65 <=? c) && (c <=? 90)) = false.
Proof.
  intros [Hd| ->]; [|repeat split].
  unfold digit_of in Hd.
  repeat match type of Hd with
         | context [if ?a =? ?b then _ else _] =>
             destruct (N.eqb_spec a b); [subst; repeat split|]
         end.
  congruence.
Qed.

Lemma chars_of_uint_numeric (d : uint) : Forall numeric (chars_of_uint d).
Proof.
  induction d; simpl; constructor; auto; left; discriminate.
Qed.

Lemma chars_of_uint_nonnil (d : uint) : d <> Nil -> chars_of_uint d <> [].
Proof. destruct d; simpl; congruence. Qed.

Lemma span_digits_chars (d : uint) (rest : pystr) :
  no_digit_ahead rest -> span_digits (chars_of_uint d ++ rest) = (d, rest).
Proof.
  intros Hr. induction d; simpl; try (rewrite IHd; reflexivity).
  destruct rest as [|c r]; [reflexivity|]. simpl in *. rewrite Hr. reflexivity.
Qed.

Lemma grouped_digits_step (c u : N) (r : pystr) (d : uint -> uint) :
  digit_of c = Some d -> (u =? 95) = false ->
  Str.grouped_digits (c :: u :: r)
  = match Str.grouped_digits (u :: r) with
    | Some ds => Some (d ds)
    | None => None
    end.
Proof.
  intros Hc Hu.
  change (Str.grouped_digits (c :: u :: r))
    with (match digit_of c with
          | None => None
          | Some dg =>
              match (if u =? 95 then Str.grouped_digits r
                     else Str.grouped_digits (u :: r)) with
              | Some ds => Some (dg ds)
              | None => None
              end
          end).
  rewrite Hc, Hu. reflexivity.
Qed.

Lemma grouped_digits_chars (d : uint) :
  d <> Nil -> Str.grouped_digits (chars_of_uint d) = Some d.
Proof.
  induction d; intros Hn; [congruence| | | | | | | | | |];
    (destruct (chars_of_uint d) as [|u r] eqn:Hc;
     [destruct d; try discriminate; reflexivity|];
     assert (Hd : d <> Nil) by (intros ->; discriminate);
     specialize (IHd Hd);
     assert (Hu : (u =? 95) = false)
       by (pose proof (chars_of_uint_numeric d) as Hf; rewrite Hc in Hf;
           inversion Hf; subst; apply numeric_plain; assumption);
     cbn [chars_of_uint]; rewrite Hc;
     erewrite grouped_digits_step; [rewrite IHd; reflexivity|reflexivity|exact Hu]).
Qed.

Lemma nzhead_head (d : uint) :
  match nzhead d with
  | D0 _ => False
  | _ => True
  end.
Proof. induction d; simpl; auto. Qed.

(** The numeral of a positive number is not empty and does not start with
    a zero. *)
Lemma to_uint_head (p : positive) :
  match Pos.to_uint p with
  | Nil | D0 _ => False
  | _ => True
  end.
Proof.
  pose proof (DecimalPos.Unsigned.to_of (Pos.to_uint p)) as H.
  rewrite DecimalPos.Unsigned.of_to in H. simpl in H.
  pose proof (DecimalPos.Unsigned.to_uint_nonzero p) as Hz.
  pose proof (nzhead_head (Pos.to_uint p)) as Hh.
  unfold unorm in H.
  remember (nzhead (Pos.to_uint p)) as h eqn:Eh. clear Eh.
  destruct h; try (rewrite H; exact I); [congruence|contradiction].
Qed.

Lemma str_of_int_numeric (z : Z) : Forall numeric (str_of_int z).
Proof.
  unfold str_of_int. destruct z; try apply chars_of_uint_numeric.
  constructor; [right; reflexivity|apply chars_of_uint_numeric].
Qed.

Lemma str_of_int_nonempty (z : Z) : str_of_int z <> [].
Proof.
  destruct z; try discriminate.
  apply chars_of_uint_nonnil. apply DecimalPos.Unsigned.to_uint_nonnil.
Qed.

Lemma numeric_not_opening (c : N) :
  numeric c ->
  (c =? 34) = false /\ (c =? 123) = false /\ (c =? 91) = false /\
  (110 =? c) = false /\ (116 =? c) = false /\ (102 =? c) = false.
Proof.
  intros [Hd| ->]; [|repeat split].
  unfold digit_of in Hd.
  repeat match type of Hd with
         | context [if ?a =? ?b then _ else _] =>
             destruct (N.eqb_spec a b); [subst; repeat split|]
         end.
  congruence.
Qed.

Lemma match_digits_chars (d : uint) (rest : pystr) :
  match d with
  | Nil | D0 _ => False
  | _ => True
  end ->
  no_digit_ahead rest -> match_digits (chars_of_uint d ++ rest) = Some (d, rest).
Proof.
  intros Hd Hr. unfold match_digits.
  pose proof (span_digits_chars d rest Hr) as Hs.
  destruct d; try contradiction; cbn [chars_of_uint List.app] in *;
    cbn [N.eqb Pos.eqb]; rewrite Hs; reflexivity.
Qed.

Lemma match_integer_unsigned (c : N) (cs : pystr) :
  (c =? 45) = false ->
  match_integer (c :: cs)
  = match match_digits (c :: cs) with
    | Some (ds, rest) => Some (false, ds, rest)
    | None => None
    end.
Proof. intros H. unfold match_integer. rewrite H. reflexivity. Qed.

Lemma chars_of_uint_head (d : uint) (c : N) (cs : pystr) :
  chars_of_uint d = c :: cs -> (c =? 45) = false.
Proof.
  destruct d; simpl; intros H; inversion H; reflexivity.
Qed.

Lemma match_integer_str_of_int (z : Z) (rest : pystr) :
  no_digit_ahead rest ->
  exists neg d,
    match_integer (str_of_int z ++ rest) = Some (neg, d, rest) /\
    signed neg (N.of_uint d) = z.
Proof.
  intros Hr. destruct z as [|p|p].
  - exists false, (D0 Nil). split; reflexivity.
  - exists false, (Pos.to_uint p). split.
    + unfold str_of_int. cbn [Z.to_N N.to_uint].
      pose proof (match_digits_chars _ rest (to_uint_head p) Hr) as Hm.
      pose proof (chars_of_uint_nonnil _ (DecimalPos.Unsigned.to_uint_nonnil p))
        as Hn.
      destruct (chars_of_uint (Pos.to_uint p)) as [|c cs] eqn:Hc; [congruence|].
      apply chars_of_uint_head in Hc.
      cbn [List.app] in *. rewrite (match_integer_unsigned _ _ Hc), Hm. reflexivity.
    + unfold signed, N.of_uint. rewrite DecimalPos.Unsigned.of_to. reflexivity.
  - exists true, (Pos.to_uint p). split.
    + unfold match_integer, str_of_int. cbn [List.app N.eqb Pos.eqb].
      rewrite (match_digits_chars _ rest (to_uint_head p) Hr). reflexivity.
    + unfold signed, N.of_uint. rewrite DecimalPos.Unsigned.of_to. reflexivity.
Qed.

Lemma match_number_str_of_int (z : Z) (r : pystr) :
  match_number (str_of_int z ++ 125 :: r) = Some (PInt z, 125 :: r).
Proof.
  unfold match_number.
  destruct (match_integer_str_of_int z (125 :: r) eq_refl)
    as (neg & d & -> & Hz).
  cbn [match_frac match_exp N.eqb Pos.eqb orb]. rewrite Hz. reflexivity.
Qed.

Lemma str_of_int_head (z : Z) :
  exists c cs, str_of_int z = c :: cs /\ numeric c.
Proof.
  pose proof (str_of_int_numeric z) as Hf.
  pose proof (str_of_int_nonempty z) as Hn.
  destruct (str_of_int z) as [|c cs]; [congruence|].
  inversion Hf; subst; eauto.
Qed.

Lemma scan_atom_str_of_int (z : Z) (r : pystr) :
  scan_atom (str_of_int z ++ 125 :: r) = Scanned (PInt z) (125 :: r).
Proof.
  unfold scan_atom. rewrite match_number_str_of_int.
  destruct (str_of_int_head z) as (c & cs & -> & Hc).
  destruct (numeric_not_opening c Hc) as (_ & _ & _ & Hn & Ht & Hf).
  cbn [List.app].
  cbn in Hn, Ht, Hf. cbn. rewrite Hn, Ht, Hf. reflexivity.
Qed.

(** An integer in decimal, followed by a closing brace, scans as that
    integer. *)
Lemma scan_once_str_of_int (fuel : nat) (z : Z) (r : pystr) :
  scan_once (S fuel) (str_of_int z ++ 125 :: r) = Scanned (PInt z) (125 :: r).
Proof.
  pose proof (scan_atom_str_of_int z r) as Ha.
  destruct (str_of_int_head z) as (c & cs & E & Hc). rewrite E in *.
  destruct (numeric_not_opening c Hc) as (H1 & H2 & H3 & _).
  cbn [scan_once List.app]. rewrite H1, H2, H3. exact Ha.
Qed.

End NumeralFacts.

(** ** Commands on the wire *)

Section WireFacts.

Import Json.

Lemma b2n_n2b (c : N) : c < 256 -> Utf8.b2n (Utf8.n2b c) = c.
Proof.
  intros Hc. unfold Utf8.b2n, Utf8.n2b.
  destruct (Byte.of_N c) as [b|] eqn:E.
  - apply Byte.to_of_N. exact E.
  - apply Byte.of_N_None_iff in E. lia.
Qed.

Lemma encode_ascii (s : pystr) :
  ascii_text s -> Utf8.encode s = Ok (map Utf8.n2b s).
Proof.
  induction 1 as [|c s Hc _ IH]; [reflexivity|].
  cbn [Utf8.encode map]. apply N.ltb_lt in Hc. rewrite Hc, IH. reflexivity.
Qed.

Lemma decode_ascii (s : pystr) :
  ascii_text s -> Utf8.decode (map Utf8.n2b s) = Ok s.
Proof.
  induction 1 as [|c s Hc _ IH]; [reflexivity|].
  cbn [Utf8.decode map]. cbv zeta.
  rewrite b2n_n2b by lia. apply N.ltb_lt in Hc. rewrite Hc, IH. reflexivity.
Qed.

Lemma numeric_ascii (s : pystr) : Forall numeric s -> ascii_text s.
Proof.
  intros H. eapply Forall_impl; [|exact H].
  intros c Hc. apply numeric_plain. exact Hc.
Qed.

Lemma dumps_seek_to (ms : Z) :
  dumps (seek_to_command ms) = seek_to_prefix ++ str_of_int ms ++ [125].
Proof. reflexivity. Qed.

Lemma dumps_set_volume (percent : Z) :
  dumps (set_volume_command percent)
  = set_volume_prefix ++ str_of_int percent ++ [125].
Proof. reflexivity. Qed.

Lemma ascii_with_argument (prefix : pystr) (z : Z) :
  ascii_text prefix -> ascii_text (prefix ++ str_of_int z ++ [125]).
Proof.
  intros Hp. unfold ascii_text. rewrite !Forall_app. repeat split.
  - exact Hp.
  - apply numeric_ascii, str_of_int_numeric.
  - repeat constructor.
Qed.

Lemma skip_ws_str_of_int (z : Z) (rest : pystr) :
  skip_ws (str_of_int z ++ rest) = str_of_int z ++ rest.
Proof.
  destruct (str_of_int_head z) as (c & cs & -> & Hc).
  cbn [List.app skip_ws].
  assert (Hw : is_ws c = false); [|rewrite Hw; reflexivity].
  destruct Hc as [Hd| ->]; [|reflexivity].
  unfold digit_of in Hd.
  repeat match type of Hd with
         | context [if ?a =? ?b then _ else _] =>
             destruct (N.eqb_spec a b); [subst; reflexivity|]
         end.
  congruence.
Qed.

Lemma fuel_four (c : N) (s : pystr) :
  exists k, (2 + 2 * List.length (c :: s) = S (S (S (S k))))%nat.
Proof. exists (2 * List.length s)%nat. simpl. lia. Qed.

Lemma loads_seek_to (ms : Z) :
  loads (seek_to_prefix ++ str_of_int ms ++ [125])
  = Ok (pyval_of_command (seek_to_command ms)).
Proof.
  unfold loads, seek_to_prefix. cbn [List.app].
  destruct (fuel_four 123 (tl (seek_to_prefix ++ str_of_int ms ++ [125])))
    as (k & Hk).
  unfold seek_to_prefix in Hk. cbn [List.app tl] in Hk. rewrite Hk. clear Hk.
  remember (S k) as k' eqn:Ek.
  cbn -[str_of_int]. subst k'.
  rewrite skip_ws_str_of_int, scan_once_str_of_int. reflexivity.
Qed.

Lemma loads_set_volume (percent : Z) :
  loads (set_volume_prefix ++ str_of_int percent ++ [125])
  = Ok (pyval_of_command (set_volume_command percent)).
Proof.
  unfold loads, set_volume_prefix. cbn [List.app].
  destruct (fuel_four 123 (tl (set_volume_prefix ++ str_of_int percent ++ [125])))
    as (k & Hk).
  unfold set_volume_prefix in Hk. cbn [List.app tl] in Hk. rewrite Hk. clear Hk.
  remember (S k) as k' eqn:Ek.
  cbn -[str_of_int]. subst k'.
  rewrite skip_ws_str_of_int, scan_once_str_of_int. reflexivity.
Qed.

Lemma ascii_seek_to_prefix : ascii_text seek_to_prefix.
Proof. unfold seek_to_prefix. repeat constructor. Qed.

Lemma ascii_set_volume_prefix : ascii_text set_volume_prefix.
Proof. unfold set_volume_prefix. repeat constructor. Qed.

Lemma wire_with_argument (c : command_dict) (prefix : pystr) (z : Z) :
  dumps c = prefix ++ str_of_int z ++ [125] ->
  ascii_text prefix ->
  loads (prefix ++ str_of_int z ++ [125]) = Ok (pyval_of_command c) ->
  on_the_wire c (map Utf8.n2b (dumps c)).
Proof.
  intros Hd Hp Hl. pose proof (ascii_with_argument prefix z Hp) as Ha.
  rewrite <- Hd in *. split.
  - apply encode_ascii. exact Ha.
  - unfold loads_utf8. rewrite (decode_ascii _ Ha). exact Hl.
Qed.

(** Every command of the six shapes is encoded, and its bytes decode to a
    dictionary with the same keys and values in the same order. *)
Lemma command_shape_on_the_wire (c : command_dict) :
  command_shape c -> on_the_wire c (map Utf8.n2b (dumps c)).
Proof.
  intros [| | | |ms|percent]; try (split; reflexivity).
  - apply (wire_with_argument _ _ _ (dumps_seek_to ms) ascii_seek_to_prefix).
    apply loads_seek_to.
  - apply (wire_with_argument _ _ _ (dumps_set_volume percent)
             ascii_set_volume_prefix).
    apply loads_set_volume.
Qed.

Lemma of_uint_acc_zeros (k : nat) (acc : positive) :
  Z.pos (Pos.of_uint_acc (Nat.iter k D0 Nil) acc)
  = (Z.pos acc * 10 ^ Z.of_nat k)%Z.
Proof.
  revert acc. induction k as [|k IH]; intros acc.
  - change (Nat.iter 0 D0 Nil) with Nil. cbn [Pos.of_uint_acc].
    change (Z.of_nat 0) with 0%Z. rewrite Z.pow_0_r. lia.
  - change (Nat.iter (S k) D0 Nil) with (D0 (Nat.iter k D0 Nil)).
    cbn [Pos.of_uint_acc]. rewrite IH, Nat2Z.inj_succ, Z.pow_succ_r by lia.
    rewrite Pos2Z.inj_mul. ring.
Qed.

(** A one followed by [k] zeros has [k + 1] digits. *)
Lemma int_digits_pow10 (k : nat) : int_digits (10 ^ Z.of_nat k) = N.of_nat (S k).
Proof.
  pose proof (of_uint_acc_zeros k 1) as H. rewrite Z.mul_1_l in H.
  rewrite <- H. unfold int_digits.
  change (Z.abs_N (Z.pos (Pos.of_uint_acc (Nat.iter k D0 Nil) 1)))
    with (N.of_uint (D1 (Nat.iter k D0 Nil))).
  rewrite DecimalN.Unsigned.to_of.
  change (unorm (D1 (Nat.iter k D0 Nil))) with (D1 (Nat.iter k D0 Nil)).
  cbn [nb_digits]. rewrite nb_digits_iter_D0. cbn [nb_digits].
  rewrite Nat.add_0_r. reflexivity.
Qed.

Lemma int_digits_long : int_digits (10 ^ 4300) = 4301.
Proof.
  exact (eq_trans (int_digits_pow10 4300) (eq_refl : N.of_nat 4301 = 4301)).
Qed.

Lemma dumps_checked_seek_to (ms : Z) :
  dumps_checked (seek_to_command ms)
  = if int_digits ms <=? max_str_digits
    then Ok (dumps (seek_to_command ms)) else Raise ValueError.
Proof.
  unfold dumps_checked, within_limit, seek_to_command. cbn [forallb snd andb].
  destruct (int_digits ms <=? max_str_digits); reflexivity.
Qed.

(** C5, as the claim has it, fails: the position [10^4300] is not negative,
    so the command that seeks to it is valid; it has 4301 digits, and
    [json.dumps] raises [ValueError] on it.  No bytes are produced that
    could be decoded. *)
Lemma long_position_is_not_encoded :
  valid_command (seek_to_command (10 ^ 4300)) /\
  int_digits (10 ^ 4300) = 4301 /\
  dumps_checked (seek_to_command (10 ^ 4300)) = Raise ValueError.
Proof.
  split; [apply valid_seek_to; apply Z.pow_nonneg; lia|].
  split; [exact int_digits_long|].
  rewrite dumps_checked_seek_to, int_digits_long. reflexivity.
Qed.

(** C5, amended.  A valid command whose integer has at most
    [max_str_digits] digits, encoded by [json.dumps] and [str.encode],
    decoded by [bytes.decode] and [json.loads], gives the dictionary it was
    built from: the same fields with the same values, and no other. *)
Theorem command_round_trip (c : command_dict) :
  valid_command c ->
  within_limit c = true ->
  exists p,
    dumps_checked c = Ok (dumps c) /\
    Utf8.encode (dumps c) = Ok p /\
    loads_utf8 p = Ok (pyval_of_command c).
Proof.
  intros Hv Hlim. exists (map Utf8.n2b (dumps c)).
  split; [unfold dumps_checked; rewrite Hlim; reflexivity|].
  apply command_shape_on_the_wire. destruct Hv; constructor.
Qed.

(** Seeking to 5000 ms. *)
Lemma command_round_trip_witness :
  exists p,
    dumps_checked (seek_to_command 5000)
    = Ok (text "{'command': 'seek_to', 'value_ms': 5000}") /\
    Utf8.encode (dumps (seek_to_command 5000)) = Ok p /\
    loads_utf8 p
    = Ok (PDict [(cps "command", PStr (cps "seek_to"));
                 (cps "value_ms", PInt 5000)]).
Proof.
  apply (command_round_trip (seek_to_command 5000)).
  - apply valid_seek_to. lia.
  - reflexivity.
Defined.

End WireFacts.

(** ** The command loop *)

Section LoopFacts.

Import Json.

Lemma strip_keeps (s : pystr) :
  Str.lstrip s = s -> Str.lstrip (List.rev s) = List.rev s -> Str.strip s = s.
Proof.
  intros H1 H2. unfold Str.strip. rewrite H1, H2. apply List.rev_involutive.
Qed.

Lemma rev_numeric (s : pystr) :
  Forall numeric s -> s <> [] ->
  exists c t, List.rev s = c :: t /\ numeric c.
Proof.
  intros Hf Hn. apply Forall_rev in Hf.
  destruct (List.rev s) as [|c t] eqn:E.
  - apply (f_equal (@List.rev N)) in E. rewrite List.rev_involutive in E.
    simpl in E. congruence.
  - inversion Hf; subst; eauto.
Qed.

(** A word that starts with no space, followed by a numeral, is left as it
    is by [strip]. *)
Lemma strip_word_numeral (word num : pystr) :
  Str.lstrip (word ++ num) = word ++ num ->
  Forall numeric num -> num <> [] ->
  Str.strip (word ++ num) = word ++ num.
Proof.
  intros Hw Hf Hn. apply strip_keeps; [exact Hw|].
  rewrite List.rev_app_distr.
  destruct (rev_numeric num Hf Hn) as (c & t & -> & Hc).
  cbn [List.app Str.lstrip].
  destruct (numeric_plain c Hc) as (_ & -> & _). reflexivity.
Qed.

Lemma lower_numeric (s : pystr) : Forall numeric s -> Str.lower s = s.
Proof.
  induction 1 as [|c s Hc _ IH]; [reflexivity|].
  unfold Str.lower in *. cbn [map]. rewrite IH.
  destruct (numeric_plain c Hc) as (_ & _ & _ & ->). reflexivity.
Qed.

Lemma split_from_numeric (s cur : pystr) :
  Forall numeric s -> cur ++ s <> [] -> Str.split_from s cur = [cur ++ s].
Proof.
  intros Hf. revert cur. induction Hf as [|c s Hc _ IH]; intros cur Hn.
  - rewrite List.app_nil_r in *. destruct cur; [congruence|reflexivity].
  - cbn [Str.split_from]. destruct (numeric_plain c Hc) as (_ & -> & _).
    rewrite IH; rewrite <- List.app_assoc; [reflexivity|exact Hn].
Qed.

(** [int] reads back what [repr] writes, within the limit on digits, and
    refuses it beyond. *)
Lemma int_of_numeral (z : Z) :
  Str.int (str_of_int z)
  = if int_digits z <=? max_str_digits then Ok z else Raise ValueError.
Proof.
  unfold Str.int.
  assert (Hs : Str.strip (str_of_int z) = str_of_int z).
  { apply (strip_word_numeral [] (str_of_int z));
      [|apply str_of_int_numeric|apply str_of_int_nonempty].
    destruct (str_of_int_head z) as (c & cs & -> & Hc).
    cbn [List.app Str.lstrip].
    destruct (numeric_plain c Hc) as (_ & -> & _). reflexivity. }
  rewrite Hs. clear Hs.
  destruct z as [|p|p].
  - reflexivity.
  - unfold str_of_int. cbn [Z.to_N N.to_uint].
    pose proof (grouped_digits_chars _ (DecimalPos.Unsigned.to_uint_nonnil p))
      as Hg.
    pose proof (chars_of_uint_numeric (Pos.to_uint p)) as Hf.
    destruct (chars_of_uint (Pos.to_uint p)) as [|c cs] eqn:Hc.
    + discriminate Hg.
    + pose proof (chars_of_uint_head _ _ _ Hc) as Hm.
      assert (Hp : (c =? 43) = false).
      { destruct (Pos.to_uint p); simpl in Hc; inversion Hc; reflexivity. }
      rewrite Hm, Hp, Hg.
      change (int_digits (Z.pos p)) with (N.of_nat (nb_digits (Pos.to_uint p))).
      unfold signed, N.of_uint. rewrite DecimalPos.Unsigned.of_to. reflexivity.
  - unfold str_of_int. cbn [N.eqb Pos.eqb].
    rewrite (grouped_digits_chars _ (DecimalPos.Unsigned.to_uint_nonnil p)).
    change (int_digits (Z.neg p)) with (N.of_nat (nb_digits (Pos.to_uint p))).
    unfold signed, N.of_uint. rewrite DecimalPos.Unsigned.of_to. reflexivity.
Qed.

Lemma int_str_of_int (z : Z) :
  int_digits z <= max_str_digits -> Str.int (str_of_int z) = Ok z.
Proof.
  intros Hlim. apply N.leb_le in Hlim. rewrite int_of_numeral, Hlim. reflexivity.
Qed.

Lemma abs_signed (neg : bool) (n : N) : Z.abs_N (signed neg n) = n.
Proof. destruct neg, n; reflexivity. Qed.

Lemma grouped_digits_nonnil (s : pystr) (ds : uint) :
  Str.grouped_digits s = Some ds -> ds <> Nil.
Proof.
  destruct s as [|c r]; [discriminate|]. cbn [Str.grouped_digits].
  destruct (digit_of c) as [d|] eqn:Hd; [|discriminate].
  destruct r as [|u r'].
  - intros H; inversion H. apply (digit_of_nonnil c d Nil Hd).
  - destruct (if u =? 95 then Str.grouped_digits r'
              else Str.grouped_digits (u :: r')) as [ds'|];
      intros H; inversion H.
    apply (digit_of_nonnil c d ds' Hd).
Qed.

(** What [int] returns, [json.dumps] can write: the integer has no more
    digits than the text it was read from. *)
Lemma int_within_limit (s : pystr) (z : Z) :
  Str.int s = Ok z -> int_digits z <= max_str_digits.
Proof.
  unfold Str.int.
  match goal with
  | |- context [let (_, _) := ?x in _] => destruct x as [neg body]
  end.
  destruct (Str.grouped_digits body) as [ds|] eqn:Hg; [|discriminate].
  destruct (N.of_nat (nb_digits ds) <=? max_str_digits) eqn:Hlim; [|discriminate].
  intros H; inversion H; subst z. apply N.leb_le in Hlim.
  unfold int_digits. rewrite abs_signed, DecimalN.Unsigned.to_of.
  pose proof (nb_digits_unorm ds (grouped_digits_nonnil _ _ Hg)) as Hn.
  lia.
Qed.

Lemma dumps_checked_of_int (s : pystr) (z : Z) :
  Str.int s = Ok z ->
  dumps_checked (seek_to_command z) = Ok (dumps (seek_to_command z)) /\
  dumps_checked (set_volume_command z) = Ok (dumps (set_volume_command z)).
Proof.
  intros H. apply int_within_limit, N.leb_le in H.
  unfold dumps_checked, within_limit, seek_to_command, set_volume_command.
  cbn [forallb snd]. rewrite H. split; reflexivity.
Qed.

(** The line [word] followed by a numeral, as the loop sees it. *)
Lemma command_line_numeral (word : pystr) (z : Z) :
  Str.lstrip (word ++ str_of_int z) = word ++ str_of_int z ->
  Str.lower word = word ->
  Str.lower (Str.strip (word ++ str_of_int z)) = word ++ str_of_int z.
Proof.
  intros Hw Hl.
  rewrite (strip_word_numeral _ _ Hw (str_of_int_numeric z) (str_of_int_nonempty z)).
  unfold Str.lower in *. rewrite map_app, Hl.
  f_equal. apply lower_numeric, str_of_int_numeric.
Qed.

Lemma writes_app (t t' : list effect) : writes (t ++ t') = writes t ++ writes t'.
Proof. unfold writes. apply flat_map_app. Qed.

Lemma writes_seq {A B : Type} (m : io A) (k : A -> io B) :
  writes (fst (seq m k))
  = writes (fst m) ++ match snd m with
                      | Ok a => writes (fst (k a))
                      | Raise _ => []
                      end.
Proof.
  destruct m as [t [a|e]]; simpl.
  - destruct (k a) as [t' r]. simpl. apply writes_app.
  - symmetry. apply List.app_nil_r.
Qed.

Lemma writes_try_except {A : Type} (body : io A) (handler : exn -> io A) :
  writes (fst (try_except body handler))
  = writes (fst body) ++ match snd body with
                         | Ok _ => []
                         | Raise e => writes (fst (handler e))
                         end.
Proof.
  destruct body as [t [a|e]]; simpl.
  - symmetry. apply List.app_nil_r.
  - destruct (handler e) as [t' r]. simpl. apply writes_app.
Qed.

(** What [send_command] does once the command is encoded: it announces the
    command, hands the bytes to the transport, and reports the outcome. *)
Lemma send_command_trace (client : BleakClient) (c : command_dict) (p : list byte) :
  Utf8.encode (dumps c) = Ok p ->
  exists more,
    fst (send_command client c)
    = Print (Sending (dumps c)) :: WriteChar COMMAND_CHAR_UUID p :: more /\
    writes more = [].
Proof.
  intros He. unfold send_command. cbv zeta.
  cbn [print encodable seq lift try_except]. rewrite He. cbn [seq lift List.app].
  destruct (write_gatt_char client COMMAND_CHAR_UUID p) as [[]|e].
  - eexists. split; reflexivity.
  - cbn [try_except]. destruct (is_Exception e); eexists; split; reflexivity.
Qed.

Lemma send_command_writes (client : BleakClient) (c : command_dict) (p : list byte) :
  Utf8.encode (dumps c) = Ok p ->
  writes (fst (send_command client c)) = [(COMMAND_CHAR_UUID, p)].
Proof.
  intros He. destruct (send_command_trace client c p He) as (more & -> & Hm).
  cbn [writes flat_map List.app]. fold (writes more). rewrite Hm. reflexivity.
Qed.

Lemma read_device_info_writes (client : BleakClient) :
  writes (fst (read_device_info client)) = [].
Proof.
  unfold read_device_info. cbn [seq].
  destruct (read_gatt_char client INFO_CHAR_UUID) as [data|e]; cbn [try_except].
  - cbn [lift seq]. destruct (loads_utf8 data) as [info|e]; cbn.
    + reflexivity.
    + destruct (is_Exception e); reflexivity.
  - destruct (is_Exception e); reflexivity.
Qed.

Lemma fst_seq {A B : Type} (m : io A) (k : A -> io B) :
  fst (seq m k)
  = fst m ++ match snd m with
             | Ok a => fst (k a)
             | Raise _ => []
             end.
Proof.
  destruct m as [t [a|e]]; simpl.
  - destruct (k a); reflexivity.
  - symmetry. apply List.app_nil_r.
Qed.

Lemma fst_try_except {A : Type} (body : io A) (handler : exn -> io A) :
  fst (try_except body handler)
  = fst body ++ match snd body with
                | Ok _ => []
                | Raise e => fst (handler e)
                end.
Proof.
  destruct body as [t [a|e]]; simpl.
  - symmetry. apply List.app_nil_r.
  - destruct (handler e); reflexivity.
Qed.

Ltac decide_tests :=
  repeat match goal with
         | |- context [pystr_eqb ?a ?b] =>
             first [change (pystr_eqb a b) with false
                   |change (pystr_eqb a b) with true]
         | |- context [Str.startswith ?a ?b] =>
             first [change (Str.startswith a b) with false
                   |change (Str.startswith a b) with true]
         end.

(** The turn of the loop on [word z], for the two commands that take an
    argument: no test is made on [z]; the command is announced and its
    bytes are handed to the transport. *)
Lemma step_with_argument (client : BleakClient) (c : command_dict)
      (rest : exn -> io loop_ctl) :
  command_shape c ->
  (forall e, writes (fst (rest e)) = []) ->
  exists p more,
    on_the_wire c p /\
    fst (try_except (seq (send_command client c) (fun _ => ret Continue)) rest)
    = Print (Sending (dumps c)) :: WriteChar COMMAND_CHAR_UUID p :: more /\
    writes more = [].
Proof.
  intros Hc Hr. pose proof (command_shape_on_the_wire c Hc) as Hw.
  exists (map Utf8.n2b (dumps c)).
  destruct (send_command_trace client c _ (proj1 Hw)) as (more & Ht & Hm).
  eexists. split; [exact Hw|].
  rewrite fst_try_except, fst_seq, Ht. cbn [List.app]. split; [reflexivity|].
  rewrite !writes_app, Hm.
  destruct (send_command client c) as [t [[]|e]]; cbn [snd fst seq ret];
    [reflexivity|]. cbn [writes flat_map List.app]. apply Hr.
Qed.

Lemma loop_handler_writes (e : exn) :
  writes (fst (match e with
               | KeyboardInterrupt => ret Break
               | _ =>
                   if is_Exception e
                   then seq (print (LoopError e)) (fun _ => ret Continue)
                   else lift (Raise e)
               end)) = [].
Proof. destruct e; reflexivity. Qed.

Lemma step_set_volume (client : BleakClient) (percent : Z) :
  int_digits percent <= max_str_digits ->
  exists p more,
    on_the_wire (set_volume_command percent) p /\
    fst (interactive_step client (cps "vol " ++ str_of_int percent))
    = Print (Sending (dumps (set_volume_command percent)))
      :: WriteChar COMMAND_CHAR_UUID p :: more /\
    writes more = [].
Proof.
  intros Hlim. unfold interactive_step.
  rewrite command_line_numeral by reflexivity. cbv zeta. decide_tests.
  change (Str.split (cps "vol " ++ str_of_int percent))
    with (cps "vol" :: Str.split_from (str_of_int percent) []).
  rewrite split_from_numeric;
    [|apply str_of_int_numeric|apply str_of_int_nonempty].
  cbn [Str.subscript nth_error lift seq List.app].
  rewrite (int_str_of_int _ Hlim). cbn [lift seq List.app].
  destruct (step_with_argument client (set_volume_command percent)
              (fun e => match e with
               | KeyboardInterrupt => ret Break
               | _ =>
                   if is_Exception e
                   then seq (print (LoopError e)) (fun _ => ret Continue)
                   else lift (Raise e)
               end) (shape_set_volume percent) loop_handler_writes)
    as (p & more & Hw & Ht & Hm).
  exists p, more. split; [exact Hw|]. split; [|exact Hm].
  rewrite <- Ht. f_equal. f_equal.
  destruct (send_command client (set_volume_command percent)) as [t [[]|e]];
    reflexivity.
Qed.

Lemma step_seek_to (client : BleakClient) (ms : Z) :
  int_digits ms <= max_str_digits ->
  exists p more,
    on_the_wire (seek_to_command ms) p /\
    fst (interactive_step client (cps "seek " ++ str_of_int ms))
    = Print (Sending (dumps (seek_to_command ms)))
      :: WriteChar COMMAND_CHAR_UUID p :: more /\
    writes more = [].
Proof.
  intros Hlim. unfold interactive_step.
  rewrite command_line_numeral by reflexivity. cbv zeta. decide_tests.
  change (Str.split (cps "seek " ++ str_of_int ms))
    with (cps "seek" :: Str.split_from (str_of_int ms) []).
  rewrite split_from_numeric;
    [|apply str_of_int_numeric|apply str_of_int_nonempty].
  cbn [Str.subscript nth_error lift seq List.app].
  rewrite (int_str_of_int _ Hlim). cbn [lift seq List.app].
  destruct (step_with_argument client (seek_to_command ms)
              (fun e => match e with
               | KeyboardInterrupt => ret Break
               | _ =>
                   if is_Exception e
                   then seq (print (LoopError e)) (fun _ => ret Continue)
                   else lift (Raise e)
               end) (shape_seek_to ms) loop_handler_writes)
    as (p & more & Hw & Ht & Hm).
  exists p, more. split; [exact Hw|]. split; [|exact Hm].
  rewrite <- Ht. f_equal. f_equal.
  destruct (send_command client (seek_to_command ms)) as [t [[]|e]];
    reflexivity.
Qed.

(** Beyond the limit on digits [int] refuses the numeral: the loop reports
    the error and nothing is written. *)
Lemma step_beyond_limit (client : BleakClient) (z : Z) :
  max_str_digits < int_digits z ->
  interactive_step client (cps "seek " ++ str_of_int z)
  = ([Print (LoopError ValueError)], Ok Continue) /\
  interactive_step client (cps "vol " ++ str_of_int z)
  = ([Print (LoopError ValueError)], Ok Continue).
Proof.
  intros Hlim. apply N.leb_gt in Hlim. unfold interactive_step. split.
  - rewrite command_line_numeral by reflexivity. cbv zeta. decide_tests.
    change (Str.split (cps "seek " ++ str_of_int z))
      with (cps "seek" :: Str.split_from (str_of_int z) []).
    rewrite split_from_numeric;
      [|apply str_of_int_numeric|apply str_of_int_nonempty].
    cbn [Str.subscript nth_error lift seq List.app].
    rewrite int_of_numeral, Hlim. reflexivity.
  - rewrite command_line_numeral by reflexivity. cbv zeta. decide_tests.
    change (Str.split (cps "vol " ++ str_of_int z))
      with (cps "vol" :: Str.split_from (str_of_int z) []).
    rewrite split_from_numeric;
      [|apply str_of_int_numeric|apply str_of_int_nonempty].
    cbn [Str.subscript nth_error lift seq List.app].
    rewrite int_of_numeral, Hlim. reflexivity.
Qed.

(** A position of 4301 digits typed after [seek]. *)
Lemma seek_beyond_the_limit (client : BleakClient) :
  interactive_step client (cps "seek " ++ str_of_int (10 ^ 4300))
  = ([Print (LoopError ValueError)], Ok Continue).
Proof.
  assert (L : max_str_digits < int_digits (10 ^ 4300))
    by (rewrite int_digits_long; reflexivity).
  exact (proj1 (step_beyond_limit client (10 ^ 4300) L)).
Qed.

Lemma send_command_wire (client : BleakClient) (c : command_dict) :
  command_shape c ->
  Forall (wire_command) (writes (fst (send_command client c))).
Proof.
  intros Hc. pose proof (command_shape_on_the_wire c Hc) as Hw.
  rewrite (send_command_writes client c _ (proj1 Hw)).
  constructor; [|constructor]. split; [reflexivity|]. exists c. split; assumption.
Qed.

(** Every write of one turn of the loop carries a command of one of the six
    shapes, for any line. *)
Lemma step_writes (client : BleakClient) (line : pystr) :
  Forall (wire_command)
         (writes (fst (interactive_step client line))).
Proof.
  unfold interactive_step. cbv zeta.
  set (cmd := Str.lower (Str.strip line)).
  rewrite writes_try_except. apply Forall_app. split.
  - destruct (pystr_eqb cmd (cps "quit")); [constructor|].
    rewrite writes_seq. apply Forall_app. split.
    + repeat match goal with
             | |- context [if ?b then _ else _] => destruct b
             end;
        try (apply send_command_wire; constructor);
        try (rewrite read_device_info_writes; constructor);
        try (constructor; fail);
        (destruct (Str.subscript (Str.split cmd) 1) as [tok|e];
         [|constructor]);
        cbn [lift seq List.app];
        (destruct (Str.int tok) as [z|e]; [|constructor]);
        cbn [lift seq List.app];
        match goal with
        | |- context [send_command ?cl ?c] =>
            pose proof (send_command_wire cl c ltac:(constructor)) as Hs;
            destruct (send_command cl c) as [t r]; exact Hs
        end.
    + match goal with
      | |- context [match snd ?m with _ => _ end] => destruct (snd m)
      end; constructor.
  - match goal with
    | |- context [match snd ?m with _ => _ end] => destruct (snd m) as [a|e]
    end; [constructor|].
    rewrite loop_handler_writes. constructor.
Qed.

Lemma mode_writes (client : BleakClient) (lines : list pystr) :
  Forall (wire_command)
         (writes (fst (interactive_mode client lines))).
Proof.
  induction lines as [|line rest IH]; [constructor|].
  cbn [interactive_mode]. rewrite writes_seq. apply Forall_app. split.
  - apply step_writes.
  - destruct (snd (interactive_step client line)) as [[|]|e];
      [constructor|exact IH|constructor].
Qed.

End LoopFacts.

(** ** Claims on the command loop and on the capability read *)

Section CommandClaims.

Import Json.

(** C2, as the claim has it, fails: the line [vol 150] is not refused.  The
    command is encoded and its bytes are handed to the transport. *)
Lemma volume_150_is_written :
  (150 < 0 \/ 100 < 150)%Z /\
  interactive_step (accepting_client []) (cps "vol 150")
  = ([Print (Sending (text "{'command': 'set_volume', 'value_percent': 150}"));
      WriteChar COMMAND_CHAR_UUID
        (payload "{'command': 'set_volume', 'value_percent': 150}");
      Print Sent], Ok Continue).
Proof. split; [right; lia|reflexivity]. Qed.

(** C2, amended.  The loop makes no test on the volume: for every integer
    outside 0..100 that [int] can read (at most [max_str_digits] digits)
    typed after [vol], the command with that value is encoded and handed
    to the transport in one write, and the bytes written decode to that
    command. *)
Theorem set_volume_is_not_checked (client : BleakClient) (percent : Z) :
  (percent < 0 \/ 100 < percent)%Z ->
  int_digits percent <= max_str_digits ->
  exists p more,
    on_the_wire (set_volume_command percent) p /\
    fst (interactive_step client (cps "vol " ++ str_of_int percent))
    = Print (Sending (dumps (set_volume_command percent)))
      :: WriteChar COMMAND_CHAR_UUID p :: more /\
    writes more = [].
Proof. intros _. apply step_set_volume. Qed.

Lemma set_volume_is_not_checked_witness :
  exists p more,
    on_the_wire (set_volume_command 150) p /\
    fst (interactive_step (accepting_client []) (cps "vol " ++ str_of_int 150))
    = Print (Sending (dumps (set_volume_command 150)))
      :: WriteChar COMMAND_CHAR_UUID p :: more /\
    writes more = [].
Proof.
  apply (set_volume_is_not_checked (accepting_client []) 150).
  - right. lia.
  - apply N.leb_le. reflexivity.
Defined.

(** C3, as the claim has it, fails: the line [seek -5] is not refused.  The
    command is encoded and its bytes are handed to the transport. *)
Lemma seek_minus_5_is_written :
  (-5 < 0)%Z /\
  interactive_step (accepting_client []) (cps "seek -5")
  = ([Print (Sending (text "{'command': 'seek_to', 'value_ms': -5}"));
      WriteChar COMMAND_CHAR_UUID
        (payload "{'command': 'seek_to', 'value_ms': -5}");
      Print Sent], Ok Continue).
Proof. split; [lia|reflexivity]. Qed.

(** C3, amended.  The loop makes no test on the position: for every
    negative integer that [int] can read (at most [max_str_digits] digits)
    typed after [seek], the command with that value is encoded and handed
    to the transport in one write, and the bytes written decode to that
    command. *)
Theorem seek_to_is_not_checked (client : BleakClient) (ms : Z) :
  (ms < 0)%Z ->
  int_digits ms <= max_str_digits ->
  exists p more,
    on_the_wire (seek_to_command ms) p /\
    fst (interactive_step client (cps "seek " ++ str_of_int ms))
    = Print (Sending (dumps (seek_to_command ms)))
      :: WriteChar COMMAND_CHAR_UUID p :: more /\
    writes more = [].
Proof. intros _. apply step_seek_to. Qed.

Lemma seek_to_is_not_checked_witness :
  exists p more,
    on_the_wire (seek_to_command (-5)) p /\
    fst (interactive_step (accepting_client []) (cps "seek " ++ str_of_int (-5)))
    = Print (Sending (dumps (seek_to_command (-5))))
      :: WriteChar COMMAND_CHAR_UUID p :: more /\
    writes more = [].
Proof.
  apply (seek_to_is_not_checked (accepting_client []) (-5)).
  - lia.
  - apply N.leb_le. reflexivity.
Defined.

Lemma command_shape_exact (c : command_dict) : command_shape c -> exact_fields c.
Proof.
  intros []; simpl; (split; [reflexivity|]); auto 6.
Qed.

(** C8.  Whatever lines the operator types, every write of the command
    loop goes to the command characteristic and carries a command with
    exactly the fields of its tag: the bytes written decode to a
    dictionary that has the [command] field alone for [play], [pause],
    [next] and [previous], [command] and [value_ms] for [seek_to],
    [command] and [value_percent] for [set_volume]. *)
Theorem outbound_commands_are_exact
    (client : BleakClient) (lines : list pystr) (uuid : string) (p : list byte) :
  In (uuid, p) (writes (fst (interactive_mode client lines))) ->
  uuid = COMMAND_CHAR_UUID /\
  exists c,
    exact_fields c /\
    Utf8.encode (dumps c) = Ok p /\
    loads_utf8 p = Ok (pyval_of_command c).
Proof.
  intros Hin.
  pose proof (mode_writes client lines) as Hf.
  rewrite Forall_forall in Hf. destruct (Hf _ Hin) as (Hu & c & Hc & He & Hl).
  split; [exact Hu|]. exists c. split; [|split; assumption].
  apply command_shape_exact. exact Hc.
Qed.

(** The lines [play] and [seek 5000], then [quit]. *)
Lemma outbound_commands_are_exact_witness :
  exists c,
    exact_fields c /\
    Utf8.encode (dumps c)
    = Ok (payload "{'command': 'seek_to', 'value_ms': 5000}") /\
    loads_utf8 (payload "{'command': 'seek_to', 'value_ms': 5000}")
    = Ok (pyval_of_command c).
Proof.
  apply (outbound_commands_are_exact
           (accepting_client [])
           [cps "play"; cps "seek 5000"; cps "quit"]
           COMMAND_CHAR_UUID
           (payload "{'command': 'seek_to', 'value_ms': 5000}")).
  right. left. reflexivity.
Defined.

(** C7, as the claim has it, fails: when the capability document is not
    JSON, [read_device_info] prints a report and returns normally; no
    error reaches its caller. *)
Lemma bad_info_is_not_raised :
  loads_utf8 (payload "not json") = Raise JSONDecodeError /\
  read_device_info (accepting_client (payload "not json"))
  = ([ReadChar INFO_CHAR_UUID; Print (InfoFailed JSONDecodeError)], Ok tt).
Proof. split; reflexivity. Qed.

(** C7, amended.  For every payload that is not valid UTF-8 JSON, the
    decoding error is caught inside [read_device_info]: the failure is
    reported on the console and the call returns normally. *)
Theorem read_device_info_reports
    (client : BleakClient) (data : list byte) (e : exn) :
  read_gatt_char client INFO_CHAR_UUID = Ok data ->
  loads_utf8 data = Raise e ->
  read_device_info client
  = ([ReadChar INFO_CHAR_UUID; Print (InfoFailed e)], Ok tt).
Proof.
  intros Hr Hl. unfold read_device_info. rewrite Hr.
  cbn [seq lift List.app]. rewrite Hl. cbn [try_except].
  destruct (loads_utf8_raises _ _ Hl) as [[_ ->]|(_ & _ & _ & ->)];
    reflexivity.
Qed.

Lemma read_device_info_reports_witness :
  read_device_info (accepting_client [xde; xad; xbe; xef])
  = ([ReadChar INFO_CHAR_UUID; Print (InfoFailed UnicodeDecodeError)], Ok tt).
Proof.
  apply (read_device_info_reports (accepting_client [xde; xad; xbe; xef])
           [xde; xad; xbe; xef] UnicodeDecodeError); reflexivity.
Defined.

End CommandClaims.

(** * Further properties *)

(** ** Notifications *)

Section NotificationProperties.

Lemma pystr_eqb_true (a b : pystr) : pystr_eqb a b = true -> a = b.
Proof.
  revert b; induction a as [|x a IH]; intros [|y b]; simpl; try discriminate.
  - reflexivity.
  - intros H. apply andb_prop in H. destruct H as [Hx Hr].
    apply N.eqb_eq in Hx. apply IH in Hr. subst. reflexivity.
Qed.

Lemma pystr_eqb_refl (a : pystr) : pystr_eqb a a = true.
Proof. induction a as [|x a IH]; simpl; [reflexivity|]. rewrite N.eqb_refl. exact IH. Qed.



Lemma hex_digit_inj (n m : N) :
  n < 16 -> m < 16 -> Utf8.hex_digit n = Utf8.hex_digit m -> n = m.
Proof.
  unfold Utf8.hex_digit. intros Hn Hm.
  destruct (N.ltb_spec n 10); destruct (N.ltb_spec m 10); lia.
Qed.

Lemma byte_nibbles (b : byte) :
  N.shiftr (Utf8.b2n b) 4 < 16 /\ N.land (Utf8.b2n b) 15 < 16 /\
  Utf8.b2n b = 16 * N.shiftr (Utf8.b2n b) 4 + N.land (Utf8.b2n b) 15.
Proof.
  unfold Utf8.b2n. pose proof (Byte.to_N_bounded b) as Hb.
  rewrite N.shiftr_div_pow2. change 15 with (N.ones 4). rewrite N.land_ones.
  change (2 ^ 4) with 16.
  pose proof (N.div_mod (Byte.to_N b) 16 ltac:(lia)) as Hd.
  pose proof (N.mod_lt (Byte.to_N b) 16 ltac:(lia)) as Hm.
  repeat split; try lia.
  apply N.Div0.div_lt_upper_bound. lia.
Qed.

Lemma b2n_inj (a b : byte) : Utf8.b2n a = Utf8.b2n b -> a = b.
Proof.
  unfold Utf8.b2n. intros H.
  pose proof (Byte.of_to_N a) as Ha. pose proof (Byte.of_to_N b) as Hb.
  rewrite H in Ha. rewrite Ha in Hb. inversion Hb. reflexivity.
Qed.

Lemma hex_inj (a b : list byte) : Utf8.hex a = Utf8.hex b -> a = b.
Proof.
  revert b. induction a as [|x a IH]; intros [|y b] H; cbn [Utf8.hex] in H;
    try discriminate; [reflexivity|].
  injection H as H1 H2 H3.
  destruct (byte_nibbles x) as (Hx1 & Hx2 & Hx).
  destruct (byte_nibbles y) as (Hy1 & Hy2 & Hy).
  assert (E1 : N.shiftr (Utf8.b2n x) 4 = N.shiftr (Utf8.b2n y) 4)
    by (apply hex_digit_inj; assumption).
  assert (E2 : N.land (Utf8.b2n x) 15 = N.land (Utf8.b2n y) 15)
    by (apply hex_digit_inj; assumption).
  f_equal; [apply b2n_inj; lia|apply IH; exact H3].
Qed.

(** X2.  No byte of a text notification that is not JSON is lost: for a
    payload that fits a GATT attribute and is UTF-8 text on which
    [json.loads] raises [JSONDecodeError], on every characteristic the
    handler prints one raw line, the hexadecimal form of the payload, two
    digits per byte, and two payloads with the same raw line are equal. *)
Theorem raw_line_keeps_the_bytes
    (char_uuid : string) (data : list byte) (text : pystr) :
  (List.length data <= ATT_MAX_VALUE_LEN)%nat ->
  Utf8.decode data = Ok text ->
  Json.loads text = Raise JSONDecodeError ->
  notification_handler char_uuid data
  = ([Print (RawData (Utf8.hex data))], Ok tt) /\
  List.length (Utf8.hex data) = (2 * List.length data)%nat /\
  (forall data', Utf8.hex data' = Utf8.hex data -> data' = data).
Proof.
  intros _ Hd Hl. split; [exact (handler_unparsable _ _ _ _ Hd Hl)|]. split.
  - clear. induction data as [|b r IH]; simpl; [reflexivity|]. rewrite IH. lia.
  - intros data' H. apply hex_inj. exact H.
Qed.

Lemma raw_line_keeps_the_bytes_witness :
  notification_handler STATE_CHAR_UUID (payload "battery low")
  = ([Print (RawData (cps "62617474657279206c6f77"))], Ok tt) /\
  List.length (Utf8.hex (payload "battery low")) = 22%nat /\
  (forall data', Utf8.hex data' = Utf8.hex (payload "battery low") ->
                 data' = payload "battery low").
Proof.
  apply (raw_line_keeps_the_bytes STATE_CHAR_UUID (payload "battery low")
           (text "battery low")).
  - vm_compute. lia.
  - reflexivity.
  - reflexivity.
Defined.

(** X3.  A state message whose [type] is not the string [stateUpdate] (no
    [type], another name, or a value that is not a string) is passed
    through: after the header the whole object is shown, whatever its
    fields. *)
Theorem state_message_passed_through (data : list byte) (d : pydict) :
  loads_utf8 data = Ok (PDict d) ->
  dict_lookup d (cps "type") <> Some (PStr (cps "stateUpdate")) ->
  notification_handler STATE_CHAR_UUID data
  = ([Print StateHeader; Print (Document (PDict d))], Ok tt).
Proof.
  intros Hl Ht. apply handler_state_other; [exact Hl|].
  unfold dict_get. destruct (dict_lookup d (cps "type")) as [v|]; [|reflexivity].
  destruct v; try reflexivity. unfold eq_str.
  destruct (pystr_eqb s (cps "stateUpdate")) eqn:E; [|reflexivity].
  apply pystr_eqb_true in E. subst. congruence.
Qed.

Lemma state_message_passed_through_witness :
  notification_handler STATE_CHAR_UUID (payload "{'type':'queue','size':3}")
  = ([Print StateHeader;
      Print (Document (PDict [(cps "type", PStr (cps "queue"));
                              (cps "size", PInt 3)]))], Ok tt).
Proof.
  apply (state_message_passed_through
           (payload "{'type':'queue','size':3}")
           [(cps "type", PStr (cps "queue")); (cps "size", PInt 3)]).
  - reflexivity.
  - discriminate.
Defined.

(** X4.  A handler made for a characteristic other than the state and the
    debug ones shows nothing for a payload that is JSON, object or not. *)
Theorem other_characteristic_is_silent
    (char_uuid : string) (data : list byte) (v : pyval) :
  char_uuid <> STATE_CHAR_UUID -> char_uuid <> DEBUG_CHAR_UUID ->
  loads_utf8 data = Ok v ->
  notification_handler char_uuid data = ([], Ok tt).
Proof.
  intros Hs Hd Hl. apply (handler_other_role _ _ v Hl).
  - apply String.eqb_neq. exact Hs.
  - apply String.eqb_neq. exact Hd.
Qed.

Lemma other_characteristic_is_silent_witness :
  notification_handler INFO_CHAR_UUID (payload "[1, 2]") = ([], Ok tt).
Proof.
  apply (other_characteristic_is_silent INFO_CHAR_UUID (payload "[1, 2]")
           (PList [PInt 1; PInt 2])).
  - discriminate.
  - discriminate.
  - reflexivity.
Defined.

(** X5.  On the debug source the line of a message shows its [type] and
    its [message] as they are, when the console can write them (as strings
    they hold no surrogate); a message without [type] is shown with [LOG],
    one without [message] with the empty string; and each of the five
    level names has the marker of the table. *)
Theorem debug_line_fields (data : list byte) (d : pydict) (name marker : pystr) :
  loads_utf8 data = Ok (PDict d) ->
  In (name, marker) level_symbols ->
  dict_lookup d (cps "level") = Some (PStr name) ->
  str_encodes (dict_get d (cps "type") (PStr (cps "LOG"))) = true ->
  str_encodes (dict_get d (cps "message") (PStr [])) = true ->
  exists log_type msg more,
    notification_handler DEBUG_CHAR_UUID data
    = (Print (LogLine marker log_type msg) :: more, Ok tt) /\
    (dict_lookup d (cps "type") = None -> log_type = PStr (cps "LOG")) /\
    (dict_lookup d (cps "message") = None -> msg = PStr []) /\
    (forall v, dict_lookup d (cps "type") = Some v -> log_type = v) /\
    (forall v, dict_lookup d (cps "message") = Some v -> msg = v).
Proof.
  intros Hl Hin Hv Hty Hmsg.
  exists (dict_get d (cps "type") (PStr (cps "LOG"))),
         (dict_get d (cps "message") (PStr [])).
  eexists. split.
  - apply handler_debug; [exact Hl| |exact Hty|exact Hmsg].
    rewrite (dict_get_present _ _ _ _ Hv).
    unfold level_symbols in Hin. simpl in Hin.
    repeat (destruct Hin as [Hin|Hin]; [inversion Hin; subst; reflexivity|]).
    destruct Hin.
  - repeat split; intros; auto using dict_get_absent, dict_get_present.
Qed.

Lemma debug_line_fields_witness :
  exists log_type msg more,
    notification_handler DEBUG_CHAR_UUID (payload "{'level':'ERROR'}")
    = (Print (LogLine [10060] log_type msg) :: more, Ok tt) /\
    log_type = PStr (cps "LOG") /\ msg = PStr [].
Proof.
  destruct (debug_line_fields (payload "{'level':'ERROR'}")
              [(cps "level", PStr (cps "ERROR"))] (cps "ERROR") [10060]
              eq_refl (or_introl eq_refl) eq_refl eq_refl eq_refl)
    as (log_type & msg & more & H & Ht & Hm & _).
  exists log_type, msg, more.
  split; [exact H|]. split; [apply Ht|apply Hm]; reflexivity.
Defined.

(** X6.  A debug message whose [level] is an array or an object is lost:
    the lookup in the table of markers raises [TypeError] before anything
    is printed, and only the error report is shown. *)
Theorem debug_level_must_be_hashable (data : list byte) (d : pydict) (v : pyval) :
  loads_utf8 data = Ok (PDict d) ->
  dict_lookup d (cps "level") = Some v ->
  hashable v = false ->
  notification_handler DEBUG_CHAR_UUID data
  = ([Print (HandlingError TypeError)], Ok tt).
Proof.
  intros Hl Hv Hh. apply (handler_debug_unhashable data d TypeError Hl).
  rewrite (dict_get_present _ _ _ _ Hv). unfold level_symbols_get.
  rewrite Hh. reflexivity.
Qed.

Lemma debug_level_must_be_hashable_witness :
  notification_handler DEBUG_CHAR_UUID
    (payload "{'level':['ERROR'],'message':'disk full'}")
  = ([Print (HandlingError TypeError)], Ok tt).
Proof.
  apply (debug_level_must_be_hashable
           (payload "{'level':['ERROR'],'message':'disk full'}")
           [(cps "level", PList [PStr (cps "ERROR")]);
            (cps "message", PStr (cps "disk full"))]
           (PList [PStr (cps "ERROR")])); reflexivity.
Defined.

End NotificationProperties.

(** ** The capability read and the sending of a command *)

Section ClientCallProperties.

Import Json.

(** X7.  [read_device_info] makes one call on the transport, a read of the
    info characteristic, and never a write.  Any JSON value is accepted as
    capabilities and shown; a failure of the read is reported like a
    failure of the decoding; and with a transport that fails by ordinary
    exceptions the call returns normally. *)
Theorem read_device_info_calls (client : BleakClient) :
  io_calls (fst (read_device_info client)) = [ReadChar INFO_CHAR_UUID] /\
  (ordinary_failures client -> snd (read_device_info client) = Ok tt) /\
  (forall data v,
      read_gatt_char client INFO_CHAR_UUID = Ok data ->
      loads_utf8 data = Ok v ->
      read_device_info client
      = ([ReadChar INFO_CHAR_UUID; Print Capabilities; Print (Document v)],
         Ok tt)) /\
  (forall e,
      read_gatt_char client INFO_CHAR_UUID = Raise e ->
      is_Exception e = true ->
      read_device_info client
      = ([ReadChar INFO_CHAR_UUID; Print (InfoFailed e)], Ok tt)).
Proof.
  unfold read_device_info. cbn [seq].
  destruct (read_gatt_char client INFO_CHAR_UUID) as [data|e] eqn:Hr.
  - cbn [lift seq List.app].
    destruct (loads_utf8 data) as [info|e] eqn:Hl.
    + repeat split; try reflexivity.
      * intros data' v Hd Hv. inversion Hd; subst. rewrite Hl in Hv.
        inversion Hv; subst. reflexivity.
      * intros e He. discriminate He.
    + cbn [try_except print encodable].
      destruct (loads_utf8_raises _ _ Hl) as [[_ ->]|(_ & _ & _ & ->)];
        (repeat split; try reflexivity;
         [intros data' v Hd Hv; inversion Hd; subst; rewrite Hl in Hv;
          discriminate Hv
         |intros e He; discriminate He]).
  - cbn [try_except]. destruct (is_Exception e) eqn:He.
    + repeat split; try reflexivity.
      * intros data v Hd. discriminate Hd.
      * intros e' He' _. inversion He'; subst. reflexivity.
    + repeat split; try reflexivity.
      * intros [Hread _]. rewrite (Hread _ _ Hr) in He. discriminate He.
      * intros data v Hd. discriminate Hd.
      * intros e' He' He''. inversion He'; subst. congruence.
Qed.

(** An array as capabilities. *)
Lemma read_device_info_calls_witness :
  read_device_info (accepting_client (payload "['play', 'seek']"))
  = ([ReadChar INFO_CHAR_UUID; Print Capabilities;
      Print (Document (PList [PStr (cps "play"); PStr (cps "seek")]))],
     Ok tt).
Proof.
  exact (proj1 (proj2 (proj2 (read_device_info_calls
                                (accepting_client (payload "['play', 'seek']")))))
           (payload "['play', 'seek']")
           (PList [PStr (cps "play"); PStr (cps "seek")]) eq_refl eq_refl).
Defined.

Lemma hex_digit_ascii (x : N) : Utf8.hex_digit (N.land x 15) < 128.
Proof.
  assert (H : N.land x 15 < 16).
  { change 15 with (N.ones 4). rewrite N.land_ones. apply N.mod_lt. discriminate. }
  unfold Utf8.hex_digit. destruct (N.ltb_spec (N.land x 15) 10); lia.
Qed.

Lemma hex4_of_ascii (c : N) : ascii_text (hex4_of c).
Proof. unfold hex4_of. repeat constructor; apply hex_digit_ascii. Qed.

Lemma escape_ascii_ascii (c : N) : ascii_text (escape_ascii c).
Proof.
  unfold escape_ascii, ascii_text.
  repeat match goal with
         | |- context [if ?a =? ?b then _ else _] =>
             destruct (a =? b); [repeat constructor|]
         end.
  destruct ((32 <=? c) && (c <=? 126)) eqn:Hp.
  - apply andb_prop in Hp. destruct Hp as [_ Hp]. apply N.leb_le in Hp.
    repeat constructor. lia.
  - destruct (c <? 65536); rewrite ?Forall_app; repeat split;
      try apply hex4_of_ascii; repeat constructor.
Qed.

Lemma encode_basestring_ascii_ascii (s : pystr) :
  ascii_text (encode_basestring_ascii s).
Proof.
  unfold encode_basestring_ascii, ascii_text.
  constructor; [reflexivity|]. apply Forall_app. split; [|repeat constructor].
  induction s as [|c s IH]; [constructor|].
  cbn [flat_map]. apply Forall_app. split; [apply escape_ascii_ascii|exact IH].
Qed.

Lemma dumps_item_ascii (kv : pystr * cmd_value) : ascii_text (dumps_item kv).
Proof.
  unfold dumps_item, ascii_text. rewrite !Forall_app. repeat split.
  - apply encode_basestring_ascii_ascii.
  - repeat constructor.
  - destruct (snd kv) as [s|z]; cbn [dumps_value].
    + apply encode_basestring_ascii_ascii.
    + apply numeric_ascii, str_of_int_numeric.
Qed.

Lemma dumps_items_ascii (d : command_dict) : ascii_text (dumps_items d).
Proof.
  induction d as [|kv d IH]; [constructor|].
  destruct d as [|kv' d']; [apply dumps_item_ascii|].
  change (dumps_items (kv :: kv' :: d'))
    with (dumps_item kv ++ cps ", " ++ dumps_items (kv' :: d')).
  unfold ascii_text. rewrite !Forall_app. repeat split.
  - apply dumps_item_ascii.
  - repeat constructor.
  - exact IH.
Qed.

(** [json.dumps] writes ASCII only, whatever the strings of the
    dictionary. *)
Lemma dumps_ascii (d : command_dict) : ascii_text (dumps d).
Proof.
  unfold dumps, ascii_text. constructor; [reflexivity|].
  apply Forall_app. split; [apply dumps_items_ascii|repeat constructor].
Qed.

Lemma send_command_calls (client : BleakClient) (c : command_dict) :
  io_calls (fst (send_command client c))
  = [WriteChar COMMAND_CHAR_UUID (map Utf8.n2b (dumps c))].
Proof.
  unfold send_command. cbv zeta.
  cbn [print encodable seq lift try_except].
  rewrite (encode_ascii _ (dumps_ascii c)). cbn [seq lift List.app].
  destruct (write_gatt_char client COMMAND_CHAR_UUID
              (map Utf8.n2b (dumps c))) as [[]|e].
  - reflexivity.
  - cbn [try_except]. destruct (is_Exception e); reflexivity.
Qed.

Lemma send_command_returns (client : BleakClient) (c : command_dict) :
  ordinary_failures client -> snd (send_command client c) = Ok tt.
Proof.
  intros [_ Hw]. unfold send_command. cbv zeta.
  cbn [print encodable seq lift try_except].
  rewrite (encode_ascii _ (dumps_ascii c)). cbn [seq lift List.app].
  destruct (write_gatt_char client COMMAND_CHAR_UUID
              (map Utf8.n2b (dumps c))) as [[]|e] eqn:E.
  - reflexivity.
  - cbn [try_except]. rewrite (Hw _ _ _ E). reflexivity.
Qed.

Lemma read_device_info_one_read (client : BleakClient) :
  io_calls (fst (read_device_info client)) = [ReadChar INFO_CHAR_UUID].
Proof.
  unfold read_device_info. cbn [seq].
  destruct (read_gatt_char client INFO_CHAR_UUID) as [data|e]; cbn [try_except].
  - cbn [lift seq]. destruct (loads_utf8 data) as [info|e]; cbn.
    + reflexivity.
    + destruct (is_Exception e); reflexivity.
  - destruct (is_Exception e); reflexivity.
Qed.

Lemma read_device_info_returns (client : BleakClient) :
  ordinary_failures client -> snd (read_device_info client) = Ok tt.
Proof.
  intros [Hr _]. unfold read_device_info. cbn [seq].
  destruct (read_gatt_char client INFO_CHAR_UUID) as [data|e] eqn:E;
    cbn [try_except].
  - cbn [lift seq]. destruct (loads_utf8 data) as [info|e] eqn:Hl; cbn.
    + reflexivity.
    + destruct (loads_utf8_raises _ _ Hl) as [[_ ->]|(_ & _ & _ & ->)];
        reflexivity.
  - rewrite (Hr _ _ E). reflexivity.
Qed.

(** X8.  Every dictionary of strings and integers that [json.dumps] can
    write (its integers have at most [max_str_digits] digits) and that is
    given to [send_command] reaches the transport: [json.dumps] escapes
    what is not ASCII, so the encoding to bytes cannot fail, each byte
    written is below 128, and the call makes exactly one write, on the
    command characteristic, after announcing the text it sends. *)
Theorem every_command_reaches_the_transport
    (client : BleakClient) (c : command_dict) :
  within_limit c = true ->
  let p := map Utf8.n2b (dumps c) in
  dumps_checked c = Ok (dumps c) /\
  Utf8.encode (dumps c) = Ok p /\
  Forall (fun b => Utf8.b2n b < 128) p /\
  Utf8.decode p = Ok (dumps c) /\
  exists more,
    fst (send_command client c)
    = Print (Sending (dumps c)) :: WriteChar COMMAND_CHAR_UUID p :: more /\
    io_calls more = [].
Proof.
  intros Hlim. cbv zeta. pose proof (dumps_ascii c) as Ha.
  pose proof (encode_ascii _ Ha) as He.
  split; [unfold dumps_checked; rewrite Hlim; reflexivity|].
  split; [exact He|]. split; [|split; [apply decode_ascii; exact Ha|]].
  - apply Forall_map. eapply Forall_impl; [|exact Ha].
    intros a Hlt. cbv beta in *. rewrite b2n_n2b; lia.
  - unfold send_command. cbv zeta.
    cbn [print encodable seq lift try_except]. rewrite He. cbn [seq lift List.app].
    destruct (write_gatt_char client COMMAND_CHAR_UUID
                (map Utf8.n2b (dumps c))) as [[]|e].
    + eexists. split; reflexivity.
    + cbn [try_except]. destruct (is_Exception e); eexists; split; reflexivity.
Qed.

(** A command whose name is not ASCII: the letter e with an acute accent
    is written as an escape. *)
Lemma every_command_reaches_the_transport_witness :
  exists more,
    fst (send_command (accepting_client []) [(cps "command", CStr [233])])
    = Print (Sending (text "{'command': '\u00e9'}"))
      :: WriteChar COMMAND_CHAR_UUID (payload "{'command': '\u00e9'}") :: more /\
    io_calls more = [].
Proof.
  exact (proj2 (proj2 (proj2 (proj2
           (every_command_reaches_the_transport
              (accepting_client []) [(cps "command", CStr [233])] eq_refl))))).
Defined.



End ClientCallProperties.

(** ** The command loop *)

Section LoopProperties.

Import Json.

Ltac settle_comparisons :=
  repeat match goal with
         | |- context [?a <=? ?b] =>
             first [replace (a <=? b) with true by (symmetry; apply N.leb_le; lia)
                   |replace (a <=? b) with false by (symmetry; apply N.leb_gt; lia)]
         | |- context [?a =? ?b] =>
             replace (a =? b) with false by (symmetry; apply N.eqb_neq; lia)
         end.

Lemma isspace_printable (c : N) : 33 <= c <= 132 -> Str.isspace c = false.
Proof. intros H. unfold Str.isspace. settle_comparisons. reflexivity. Qed.

Lemma lower_char_space (c : N) : Str.isspace (lower_char c) = Str.isspace c.
Proof.
  unfold lower_char. destruct ((65 <=? c) && (c <=? 90)) eqn:H; [|reflexivity].
  apply andb_prop in H. destruct H as [H1 H2].
  apply N.leb_le in H1. apply N.leb_le in H2.
  rewrite !isspace_printable by lia. reflexivity.
Qed.

Lemma lstrip_spaces (lead s : pystr) :
  Forall (fun c => Str.isspace c = true) lead ->
  Str.lstrip (lead ++ s) = Str.lstrip s.
Proof.
  induction 1 as [|c lead Hc _ IH]; [reflexivity|].
  cbn [List.app Str.lstrip]. rewrite Hc. exact IH.
Qed.

Lemma lstrip_result (s : pystr) :
  Str.lstrip s = [] \/
  exists c r, Str.lstrip s = c :: r /\ Str.isspace c = false.
Proof.
  induction s as [|c r IH]; [left; reflexivity|].
  cbn [Str.lstrip]. destruct (Str.isspace c) eqn:Hc; [exact IH|].
  right. eauto.
Qed.

(** What [strip] returns is empty or ends with a character that is not
    white space; [lower] keeps that. *)
Lemma normalised_last (line : pystr) :
  Str.lower (Str.strip line) = [] \/
  exists a c, Str.lower (Str.strip line) = a ++ [c] /\ Str.isspace c = false.
Proof.
  unfold Str.strip.
  destruct (lstrip_result (List.rev (Str.lstrip line))) as [->|(c & r & -> & Hc)].
  - left; reflexivity.
  - right. cbn [List.rev]. unfold Str.lower. rewrite map_app. cbn [map].
    eexists. eexists. split; [reflexivity|].
    change (Str.isspace (lower_char c) = false). rewrite lower_char_space.
    exact Hc.
Qed.

Lemma strip_prefix_app (lit s r : pystr) :
  strip_prefix lit s = Some r -> s = lit ++ r.
Proof.
  revert s; induction lit as [|a lit IH]; intros s H; simpl in H.
  - inversion H; reflexivity.
  - destruct s as [|b s']; [discriminate|].
    destruct (N.eqb_spec a b); [|discriminate]. subst.
    apply IH in H. subst. reflexivity.
Qed.

Lemma startswith_app (s word : pystr) :
  Str.startswith s word = true -> exists r, s = word ++ r.
Proof.
  unfold Str.startswith.
  destruct (strip_prefix word s) as [r|] eqn:H; [|discriminate].
  intros _. exists r. apply strip_prefix_app. exact H.
Qed.

Lemma split_from_nonempty (s cur : pystr) :
  cur <> [] \/ Exists (fun c => Str.isspace c = false) s ->
  exists tok rest, Str.split_from s cur = tok :: rest /\ tok <> [].
Proof.
  revert cur. induction s as [|c r IH]; intros cur H.
  - destruct H as [H|H]; [|inversion H].
    destruct cur; [congruence|]. simpl. eexists. eexists.
    split; [reflexivity|discriminate].
  - cbn [Str.split_from]. destruct (Str.isspace c) eqn:Hc.
    + destruct cur as [|x cur'].
      * apply IH. right. destruct H as [H|H]; [congruence|].
        inversion H; subst; [congruence|assumption].
      * eexists. eexists. split; [reflexivity|discriminate].
    + apply IH. left. destruct cur; discriminate.
Qed.

Lemma last_not_space (r a : pystr) (w c : N) :
  Str.isspace w = true -> Str.isspace c = false ->
  w :: r = a ++ [c] ->
  Exists (fun x => Str.isspace x = false) r.
Proof.
  intros Hw Hc H.
  destruct (exists_last (l := r)) as (r' & x & Hr).
  - intros ->. destruct a as [|y a']; simpl in H.
    + inversion H; subst. congruence.
    + inversion H; subst. destruct a'; discriminate.
  - subst r. change (w :: r' ++ [x]) with ((w :: r') ++ [x]) in H.
    apply app_inj_tail in H. destruct H as [_ ->].
    apply Exists_app. right. constructor. exact Hc.
Qed.

(** A stripped line that starts with a word and a space has a second
    token: the subscript of [cmd.split()[1]] is never out of range. *)
Lemma second_token (line word r head : pystr) (w : N) :
  Str.lower (Str.strip line) = word ++ w :: r ->
  Str.isspace w = true ->
  Str.split (word ++ w :: r) = head :: Str.split_from r [] ->
  exists tok rest,
    Str.split (Str.lower (Str.strip line)) = head :: tok :: rest /\ tok <> [].
Proof.
  intros Hcmd Hw Hsplit.
  assert (He : Exists (fun x => Str.isspace x = false) r).
  { destruct (normalised_last line) as [H|(a & c & H & Hc)];
      rewrite Hcmd in H.
    - destruct word; discriminate.
    - clear Hcmd Hsplit. revert a H.
      induction word as [|y word IH]; intros a H.
      + apply (last_not_space r a w c Hw Hc H).
      + destruct a as [|z a'].
        * simpl in H. inversion H. destruct word; discriminate.
        * simpl in H. inversion H. apply (IH a'). assumption. }
  destruct (split_from_nonempty r [] (or_intror He)) as (tok & rest & Hs & Ht).
  exists tok, rest. rewrite Hcmd, Hsplit, Hs. split; [reflexivity|exact Ht].
Qed.

Lemma subscript_raises {A : Type} (l : list A) (i : nat) (e : exn) :
  Str.subscript l i = Raise e -> e = IndexError.
Proof.
  unfold Str.subscript. destruct (nth_error l i); intros H; inversion H.
  reflexivity.
Qed.

Lemma int_raises (s : pystr) (e : exn) : Str.int s = Raise e -> e = ValueError.
Proof.
  unfold Str.int.
  repeat match goal with
         | |- context [let (_, _) := ?x in _] => destruct x
         | |- context [match ?x with _ => _ end] => destruct x
         end; intros H; inversion H; reflexivity.
Qed.

Ltac decide_line_tests :=
  repeat match goal with
         | |- context [pystr_eqb ?a ?b] =>
             first [change (pystr_eqb a b) with false
                   |change (pystr_eqb a b) with true]
         | |- context [Str.startswith ?a ?b] =>
             first [change (Str.startswith a b) with false
                   |change (Str.startswith a b) with true]
         end.

Lemma seek_line_steps (client : BleakClient) (line : pystr) :
  Str.startswith (Str.lower (Str.strip line)) (cps "seek ") = true ->
  exists tok,
    Str.subscript (Str.split (Str.lower (Str.strip line))) 1 = Ok tok /\
    tok <> [] /\
    (forall e, Str.int tok = Raise e ->
               interactive_step client line
               = ([Print (LoopError ValueError)], Ok Continue)) /\
    (forall ms, Str.int tok = Ok ms ->
                exists p more,
                  on_the_wire (seek_to_command ms) p /\
                  fst (interactive_step client line)
                  = Print (Sending (dumps (seek_to_command ms)))
                    :: WriteChar COMMAND_CHAR_UUID p :: more /\
                  writes more = []).
Proof.
  intros Hs. destruct (startswith_app _ _ Hs) as (r & Hcmd).
  destruct (second_token line (cps "seek") r (cps "seek") 32 Hcmd eq_refl eq_refl)
    as (tok & rest & Hsplit & Htok).
  exists tok. split; [rewrite Hsplit; reflexivity|]. split; [exact Htok|].
  unfold interactive_step. cbv zeta. rewrite Hsplit. rewrite Hcmd.
  decide_line_tests. cbn [Str.subscript nth_error lift seq List.app].
  split.
  - intros e He. rewrite He. rewrite (int_raises _ _ He). reflexivity.
  - intros ms Hms. rewrite Hms. cbn [lift seq List.app].
    destruct (step_with_argument client (seek_to_command ms)
                (fun e => match e with
                 | KeyboardInterrupt => ret Break
                 | _ =>
                     if is_Exception e
                     then seq (print (LoopError e)) (fun _ => ret Continue)
                     else lift (Raise e)
                 end) (shape_seek_to ms) loop_handler_writes)
      as (p & more & Hw & Ht & Hm).
    exists p, more. split; [exact Hw|]. split; [|exact Hm].
    rewrite <- Ht. f_equal. f_equal.
    destruct (send_command client (seek_to_command ms)) as [t [[]|e]];
      reflexivity.
Qed.

Lemma vol_line_steps (client : BleakClient) (line : pystr) :
  Str.startswith (Str.lower (Str.strip line)) (cps "vol ") = true ->
  exists tok,
    Str.subscript (Str.split (Str.lower (Str.strip line))) 1 = Ok tok /\
    tok <> [] /\
    (forall e, Str.int tok = Raise e ->
               interactive_step client line
               = ([Print (LoopError ValueError)], Ok Continue)) /\
    (forall percent, Str.int tok = Ok percent ->
                exists p more,
                  on_the_wire (set_volume_command percent) p /\
                  fst (interactive_step client line)
                  = Print (Sending (dumps (set_volume_command percent)))
                    :: WriteChar COMMAND_CHAR_UUID p :: more /\
                  writes more = []).
Proof.
  intros Hs. destruct (startswith_app _ _ Hs) as (r & Hcmd).
  destruct (second_token line (cps "vol") r (cps "vol") 32 Hcmd eq_refl eq_refl)
    as (tok & rest & Hsplit & Htok).
  exists tok. split; [rewrite Hsplit; reflexivity|]. split; [exact Htok|].
  unfold interactive_step. cbv zeta. rewrite Hsplit. rewrite Hcmd.
  decide_line_tests. cbn [Str.subscript nth_error lift seq List.app].
  split.
  - intros e He. rewrite He. rewrite (int_raises _ _ He). reflexivity.
  - intros percent Hp. rewrite Hp. cbn [lift seq List.app].
    destruct (step_with_argument client (set_volume_command percent)
                (fun e => match e with
                 | KeyboardInterrupt => ret Break
                 | _ =>
                     if is_Exception e
                     then seq (print (LoopError e)) (fun _ => ret Continue)
                     else lift (Raise e)
                 end) (shape_set_volume percent) loop_handler_writes)
      as (p & more & Hw & Ht & Hm).
    exists p, more. split; [exact Hw|]. split; [|exact Hm].
    rewrite <- Ht. f_equal. f_equal.
    destruct (send_command client (set_volume_command percent)) as [t [[]|e]];
      reflexivity.
Qed.

(** X10.  A line of ASCII text that, stripped and in lower case, starts
    with [seek] or [vol] and a space always has a second token, so the
    subscript cannot fail.  When [int] refuses that token the loop prints
    the error, calls nothing on the transport, and goes on; when [int]
    reads it as [n], the command with exactly [n] is announced and
    written, whatever follows the token on the line. *)
Theorem argument_line_outcome (client : BleakClient) (line : pystr) :
  ascii_text line ->
  let cmd := Str.lower (Str.strip line) in
  (Str.startswith cmd (cps "seek ") = true ->
   exists tok,
     Str.subscript (Str.split cmd) 1 = Ok tok /\
     (forall e, Str.int tok = Raise e ->
                interactive_step client line
                = ([Print (LoopError ValueError)], Ok Continue)) /\
     (forall ms, Str.int tok = Ok ms ->
                 exists p more,
                   on_the_wire (seek_to_command ms) p /\
                   fst (interactive_step client line)
                   = Print (Sending (dumps (seek_to_command ms)))
                     :: WriteChar COMMAND_CHAR_UUID p :: more /\
                   writes more = [])) /\
  (Str.startswith cmd (cps "vol ") = true ->
   exists tok,
     Str.subscript (Str.split cmd) 1 = Ok tok /\
     (forall e, Str.int tok = Raise e ->
                interactive_step client line
                = ([Print (LoopError ValueError)], Ok Continue)) /\
     (forall percent, Str.int tok = Ok percent ->
                 exists p more,
                   on_the_wire (set_volume_command percent) p /\
                   fst (interactive_step client line)
                   = Print (Sending (dumps (set_volume_command percent)))
                     :: WriteChar COMMAND_CHAR_UUID p :: more /\
                   writes more = [])).
Proof.
  intros _. cbv zeta. split; intros Hs.
  - destruct (seek_line_steps client line Hs) as (tok & H1 & _ & H2 & H3).
    exists tok. auto.
  - destruct (vol_line_steps client line Hs) as (tok & H1 & _ & H2 & H3).
    exists tok. auto.
Qed.

(** A number followed by a word, and a word where a number should be. *)
Lemma argument_line_outcome_witness :
  (exists p more,
      on_the_wire (seek_to_command 30) p /\
      fst (interactive_step (accepting_client []) (cps " Seek 30 seconds"))
      = Print (Sending (dumps (seek_to_command 30)))
        :: WriteChar COMMAND_CHAR_UUID p :: more /\
      writes more = []) /\
  interactive_step (accepting_client []) (cps "vol loud")
  = ([Print (LoopError ValueError)], Ok Continue).
Proof.
  split.
  - destruct (proj1 (argument_line_outcome (accepting_client [])
                       (cps " Seek 30 seconds")
                       ltac:(repeat constructor)) eq_refl)
      as (tok & Hsub & _ & Hok).
    vm_compute in Hsub. inversion Hsub; subst tok.
    apply (Hok 30%Z). reflexivity.
  - destruct (proj2 (argument_line_outcome (accepting_client [])
                       (cps "vol loud")
                       ltac:(repeat constructor)) eq_refl)
      as (tok & Hsub & Hbad & _).
    vm_compute in Hsub. inversion Hsub; subst tok.
    apply (Hbad ValueError). reflexivity.
Defined.

Lemma strip_padded (lead s trail : pystr) (c c' : N) (r t : pystr) :
  Forall (fun x => Str.isspace x = true) lead ->
  Forall (fun x => Str.isspace x = true) trail ->
  s = c :: r -> Str.isspace c = false ->
  List.rev s = c' :: t -> Str.isspace c' = false ->
  Str.strip (lead ++ s ++ trail) = s.
Proof.
  intros Hl Ht Hs Hc Hr Hc'. unfold Str.strip.
  rewrite (lstrip_spaces _ _ Hl).
  assert (H1 : Str.lstrip (s ++ trail) = s ++ trail).
  { rewrite Hs. cbn [List.app Str.lstrip]. rewrite Hc. reflexivity. }
  rewrite H1, List.rev_app_distr.
  rewrite (lstrip_spaces (List.rev trail)); [|apply Forall_rev; exact Ht].
  assert (H2 : Str.lstrip (List.rev s) = List.rev s).
  { rewrite Hr. cbn [Str.lstrip]. rewrite Hc'. reflexivity. }
  rewrite H2. apply List.rev_involutive.
Qed.

Lemma padded_numeral_line (word lead trail : pystr) (c : N) (w : pystr) (z : Z) :
  word = c :: w -> Str.isspace c = false ->
  Forall (fun x => Str.isspace x = true) lead ->
  Forall (fun x => Str.isspace x = true) trail ->
  Str.lower (Str.strip (lead ++ (word ++ str_of_int z) ++ trail))
  = Str.lower (Str.strip (word ++ str_of_int z)).
Proof.
  intros Hw Hc Hl Ht.
  destruct (rev_numeric _ (str_of_int_numeric z) (str_of_int_nonempty z))
    as (c' & t & Hr & Hn).
  destruct (numeric_plain c' Hn) as (_ & Hsp & _).
  assert (Hs : Str.strip (lead ++ (word ++ str_of_int z) ++ trail)
               = word ++ str_of_int z).
  { apply (strip_padded lead _ trail c c' (w ++ str_of_int z)
             (t ++ List.rev word) Hl Ht).
    - rewrite Hw. reflexivity.
    - exact Hc.
    - rewrite List.rev_app_distr, Hr. reflexivity.
    - exact Hsp. }
  rewrite Hs. f_equal. symmetry.
  apply strip_word_numeral.
  - rewrite Hw. cbn [List.app Str.lstrip]. rewrite Hc. reflexivity.
  - apply str_of_int_numeric.
  - apply str_of_int_nonempty.
Qed.

Lemma step_of_normal_form (client : BleakClient) (line line' : pystr) :
  Str.lower (Str.strip line) = Str.lower (Str.strip line') ->
  interactive_step client line = interactive_step client line'.
Proof. intros H. unfold interactive_step. rewrite H. reflexivity. Qed.

(** X11.  The number typed is the number sent: for every integer, of any
    sign and of at most [max_str_digits] digits, written in decimal after
    [seek] or [vol], with any white space before and after the line, the
    bytes written decode to the command with that integer. *)
Theorem typed_number_is_sent
    (client : BleakClient) (z : Z) (lead trail : pystr) :
  int_digits z <= max_str_digits ->
  Forall (fun x => Str.isspace x = true) lead ->
  Forall (fun x => Str.isspace x = true) trail ->
  (exists p more,
      on_the_wire (seek_to_command z) p /\
      fst (interactive_step client
             (lead ++ (cps "seek " ++ str_of_int z) ++ trail))
      = Print (Sending (dumps (seek_to_command z)))
        :: WriteChar COMMAND_CHAR_UUID p :: more /\
      writes more = []) /\
  (exists p more,
      on_the_wire (set_volume_command z) p /\
      fst (interactive_step client
             (lead ++ (cps "vol " ++ str_of_int z) ++ trail))
      = Print (Sending (dumps (set_volume_command z)))
        :: WriteChar COMMAND_CHAR_UUID p :: more /\
      writes more = []).
Proof.
  intros Hlim Hl Ht. split.
  - rewrite (step_of_normal_form client _ (cps "seek " ++ str_of_int z)).
    + apply step_seek_to. exact Hlim.
    + apply (padded_numeral_line (cps "seek ") lead trail 115 (cps "eek ") z);
        try reflexivity; assumption.
  - rewrite (step_of_normal_form client _ (cps "vol " ++ str_of_int z)).
    + apply step_set_volume. exact Hlim.
    + apply (padded_numeral_line (cps "vol ") lead trail 118 (cps "ol ") z);
        try reflexivity; assumption.
Qed.

Lemma typed_number_is_sent_witness :
  exists p more,
    on_the_wire (set_volume_command 42) p /\
    fst (interactive_step (accepting_client [])
           ([32; 9] ++ (cps "vol " ++ str_of_int 42) ++ [32]))
    = Print (Sending (dumps (set_volume_command 42)))
      :: WriteChar COMMAND_CHAR_UUID p :: more /\
    writes more = [].
Proof.
  apply (typed_number_is_sent (accepting_client []) 42 [32; 9] [32]).
  - apply N.leb_le. reflexivity.
  - repeat constructor.
  - repeat constructor.
Defined.

Lemma io_calls_app (t t' : list effect) :
  io_calls (t ++ t') = io_calls t ++ io_calls t'.
Proof. unfold io_calls. apply filter_app. Qed.

Lemma snd_seq {A B : Type} (m : io A) (k : A -> io B) :
  snd (seq m k) = match snd m with
                  | Ok a => snd (k a)
                  | Raise e => Raise e
                  end.
Proof.
  destruct m as [t [a|e]]; simpl; [|reflexivity].
  destruct (k a); reflexivity.
Qed.


Lemma loop_handler_calls (e : exn) :
  io_calls (fst (match e with
                 | KeyboardInterrupt => ret Break
                 | _ =>
                     if is_Exception e
                     then seq (print (LoopError e)) (fun _ => ret Continue)
                     else lift (Raise e)
                 end)) = [].
Proof. destruct e; reflexivity. Qed.


(** The commands of one turn, before [ret Continue]. *)
Lemma turn_calls (client : BleakClient) (cmd : pystr) :
  let turn :=
    if pystr_eqb cmd (cps "play") then
      send_command client (simple_command "play")
    else if pystr_eqb cmd (cps "pause") then
      send_command client (simple_command "pause")
    else if pystr_eqb cmd (cps "next") then
      send_command client (simple_command "next")
    else if pystr_eqb cmd (cps "prev") then
      send_command client (simple_command "previous")
    else if Str.startswith cmd (cps "seek ") then
      seq (lift (Str.subscript (Str.split cmd) 1))
          (fun tok => seq (lift (Str.int tok))
                          (fun ms => send_command client (seek_to_command ms)))
    else if Str.startswith cmd (cps "vol ") then
      seq (lift (Str.subscript (Str.split cmd) 1))
          (fun tok => seq (lift (Str.int tok))
                          (fun percent =>
                             send_command client (set_volume_command percent)))
    else if pystr_eqb cmd (cps "info") then
      read_device_info client
    else
      print UnknownCommand in
  (List.length (io_calls (fst turn)) <= 1)%nat /\
  (ordinary_failures client ->
   snd turn = Ok tt \/ exists e, snd turn = Raise e /\ is_Exception e = true).
Proof.
  cbv zeta.
  assert (Hsend : forall c,
             (List.length (io_calls (fst (send_command client c))) <= 1)%nat /\
             (ordinary_failures client ->
              snd (send_command client c) = Ok tt \/
              exists e, snd (send_command client c) = Raise e /\
                        is_Exception e = true)).
  { intros c. split.
    - rewrite send_command_calls. simpl. lia.
    - intros Ho. left. apply send_command_returns. exact Ho. }
  assert (Harg : forall (build : Z -> command_dict),
             let turn :=
               seq (lift (Str.subscript (Str.split cmd) 1))
                   (fun tok => seq (lift (Str.int tok))
                                   (fun z => send_command client (build z))) in
             (List.length (io_calls (fst turn)) <= 1)%nat /\
             (ordinary_failures client ->
              snd turn = Ok tt \/
              exists e, snd turn = Raise e /\ is_Exception e = true)).
  { intros build. cbv zeta.
    destruct (Str.subscript (Str.split cmd) 1) as [tok|e] eqn:Es.
    - cbn [lift seq List.app].
      destruct (Str.int tok) as [z|e] eqn:Ei.
      + cbn [lift seq List.app]. destruct (Hsend (build z)) as [Hc Hr].
        destruct (send_command client (build z)) as [t r]. cbn [fst snd] in *.
        split; assumption.
      + split; [simpl; lia|]. intros _. right. exists e. split; [reflexivity|].
        rewrite (int_raises _ _ Ei). reflexivity.
    - split; [simpl; lia|]. intros _. right. exists e. split; [reflexivity|].
      rewrite (subscript_raises _ _ _ Es). reflexivity. }
  destruct (pystr_eqb cmd (cps "play")); [apply Hsend|].
  destruct (pystr_eqb cmd (cps "pause")); [apply Hsend|].
  destruct (pystr_eqb cmd (cps "next")); [apply Hsend|].
  destruct (pystr_eqb cmd (cps "prev")); [apply Hsend|].
  destruct (Str.startswith cmd (cps "seek ")); [apply (Harg seek_to_command)|].
  destruct (Str.startswith cmd (cps "vol ")); [apply (Harg set_volume_command)|].
  destruct (pystr_eqb cmd (cps "info")).
  - split.
    + rewrite read_device_info_one_read. simpl. lia.
    + intros Ho. left. apply read_device_info_returns. exact Ho.
  - split; [simpl; lia|]. intros _. left. reflexivity.
Qed.

(** X12.  One line, at most one call: a turn of the loop makes at most one
    read or write on the transport, whatever the line and whatever the
    transport answers. *)
Theorem one_call_per_line (client : BleakClient) (line : pystr) :
  (List.length (io_calls (fst (interactive_step client line))) <= 1)%nat.
Proof.
  unfold interactive_step. cbv zeta.
  set (cmd := Str.lower (Str.strip line)).
  rewrite fst_try_except, io_calls_app.
  destruct (pystr_eqb cmd (cps "quit")).
  - simpl. lia.
  - rewrite fst_seq, snd_seq.
    pose proof (proj1 (turn_calls client cmd)) as Ht. cbv zeta in Ht.
    match goal with
    | |- context [snd ?m] =>
        match type of Ht with
        | context [fst m] => destruct (snd m) as [[]|e]
        end
    end.
    + rewrite io_calls_app. cbn [ret fst snd io_calls filter List.app].
      rewrite !List.app_nil_r. exact Ht.
    + rewrite loop_handler_calls, !List.app_nil_r. exact Ht.
Qed.




Lemma quit_step (client : BleakClient) (line : pystr) :
  Str.lower (Str.strip line) = cps "quit" ->
  interactive_step client line = ([], Ok Break).
Proof. intros H. unfold interactive_step. rewrite H. reflexivity. Qed.

(** X14.  Nothing typed after [quit] is executed: the loop on lines that
    hold a [quit] does what it does on the lines before it. *)
Theorem nothing_after_quit
    (client : BleakClient) (before after : list pystr) (line : pystr) :
  Str.lower (Str.strip line) = cps "quit" ->
  interactive_mode client (before ++ line :: after)
  = interactive_mode client before.
Proof.
  intros Hq. induction before as [|l before IH].
  - cbn [List.app interactive_mode]. rewrite (quit_step client line Hq).
    reflexivity.
  - cbn [List.app interactive_mode]. unfold seq.
    destruct (interactive_step client l) as [t [[|]|e]];
      [reflexivity|rewrite IH; reflexivity|reflexivity].
Qed.

Lemma nothing_after_quit_witness :
  interactive_mode (accepting_client [])
    ([cps "next"] ++ cps "QUIT" :: [cps "vol 0"; cps "play"])
  = interactive_mode (accepting_client []) [cps "next"].
Proof.
  apply (nothing_after_quit (accepting_client []) [cps "next"]
           [cps "vol 0"; cps "play"] (cps "QUIT")).
  reflexivity.
Defined.

End LoopProperties.

(** ** The session *)

Section SessionProperties.

Lemma strip_prefix_here (lit r : pystr) : Json.strip_prefix lit (lit ++ r) = Some r.
Proof.
  induction lit as [|a lit IH]; [reflexivity|].
  cbn [List.app Json.strip_prefix]. rewrite N.eqb_refl. exact IH.
Qed.

Lemma contains_spec (sub s : pystr) :
  contains sub s = true <-> exists a b, s = a ++ sub ++ b.
Proof.
  split.
  - induction s as [|c s IH]; cbn [contains].
    + destruct (Json.strip_prefix sub []) as [r|] eqn:E; [|discriminate].
      intros _. exists [], r. apply strip_prefix_app in E. exact E.
    + destruct (Json.strip_prefix sub (c :: s)) as [r|] eqn:E.
      * intros _. exists [], r. apply strip_prefix_app in E. exact E.
      * intros H. destruct (IH H) as (a & b & ->). exists (c :: a), b.
        reflexivity.
  - intros (a & b & ->). induction a as [|c a IH].
    + cbn [List.app]. destruct (sub ++ b) as [|x l] eqn:E; cbn [contains];
        rewrite <- E, strip_prefix_here; reflexivity.
    + cbn [List.app contains].
      destruct (Json.strip_prefix sub (c :: a ++ sub ++ b)); [reflexivity|exact IH].
Qed.

(** X15.  A device is recognised exactly when its name holds
    [NocturneCompanion] as a run of consecutive characters, in that letter
    case, or when one of the UUIDs it advertises is the service UUID up to
    the case of the letters. *)
Theorem recognised_devices (d : BLEDevice) :
  (name_matches d = true <->
   exists a b, dev_name d = Some (a ++ cps "NocturneCompanion" ++ b)) /\
  (service_matches d = true <->
   exists u, In u (advertised d) /\ Str.lower u = Str.lower (cps SERVICE_UUID)).
Proof.
  split.
  - unfold name_matches. destruct (dev_name d) as [[|c n]|]; split.
    + discriminate.
    + intros (a & b & H). inversion H as [E].
      destruct a; discriminate E.
    + intros H. apply contains_spec in H. destruct H as (a & b & ->).
      exists a, b. reflexivity.
    + intros (a & b & H). apply contains_spec.
      exists a, b. injection H as E. exact E.
    + discriminate.
    + intros (a & b & H). discriminate H.
  - unfold service_matches. rewrite existsb_exists. split.
    + intros (x & Hin & Hx). apply in_map_iff in Hin.
      destruct Hin as (u & <- & Hu). exists u. split; [exact Hu|].
      symmetry. apply pystr_eqb_true. exact Hx.
    + intros (u & Hu & He). exists (Str.lower u). split.
      * apply in_map. exact Hu.
      * rewrite He. apply pystr_eqb_refl.
Qed.

Lemma first_match_none (devices : list BLEDevice) :
  Forall no_match devices -> first_match devices = ([Say NotFound], Ok None).
Proof.
  induction 1 as [|d devices Hd _ IH]; [reflexivity|].
  unfold no_match, matches in Hd. apply orb_false_elim in Hd.
  destruct Hd as [Hn Hs]. cbn [first_match]. rewrite Hn, Hs. exact IH.
Qed.

Lemma first_match_at (before after : list BLEDevice) (d : BLEDevice) :
  Forall no_match before -> matches d = true ->
  first_match (before ++ d :: after)
  = ([Say (if name_matches d then Found d else FoundByService d)], Ok (Some d)).
Proof.
  intros Hb Hd. induction Hb as [|x before Hx _ IH].
  - cbn [List.app first_match]. unfold matches in Hd.
    destruct (name_matches d); [reflexivity|].
    cbn [orb] in Hd. rewrite Hd. reflexivity.
  - unfold no_match, matches in Hx. apply orb_false_elim in Hx.
    destruct Hx as [Hn Hs]. cbn [List.app first_match]. rewrite Hn, Hs. exact IH.
Qed.

Lemma first_match_cases (devices : list BLEDevice) :
  Forall no_match devices \/
  exists before d after,
    devices = before ++ d :: after /\ Forall no_match before /\ matches d = true.
Proof.
  induction devices as [|x devices IH]; [left; constructor|].
  destruct (matches x) eqn:Hx.
  - right. exists [], x, devices. repeat split; [constructor|exact Hx].
  - destruct IH as [IH|(before & d & after & -> & Hb & Hd)].
    + left. constructor; assumption.
    + right. exists (x :: before), d, after.
      repeat split; [constructor; assumption|exact Hd].
Qed.

(** X16.  [find_device] returns the first device of the scan that is
    recognised: the device it returns is recognised and no device before
    it in the scan is; it returns [None] exactly when no device of the
    scan is recognised; and it asks for one scan. *)
Theorem find_device_first_match (peer : Peer) (devices : list BLEDevice) :
  scan_answer peer = Ok devices ->
  transport_calls (fst (find_device peer)) = [Discover] /\
  (forall d,
      snd (find_device peer) = Ok (Some d) ->
      matches d = true /\
      exists before after,
        devices = before ++ d :: after /\
        Forall (fun x => matches x = false) before) /\
  (snd (find_device peer) = Ok None <->
   Forall (fun x => matches x = false) devices).
Proof.
  intros Hs. unfold find_device, call. rewrite Hs.
  cbn [say and_then List.app].
  destruct (first_match_cases devices)
    as [Hnone|(before & d & after & -> & Hb & Hd)].
  - rewrite (first_match_none _ Hnone). cbn [fst snd].
    split; [reflexivity|]. split.
    + intros x H. discriminate H.
    + split; [intros _; exact Hnone|reflexivity].
  - rewrite (first_match_at _ _ _ Hb Hd). cbn [fst snd List.app].
    split; [destruct (name_matches d); reflexivity|]. split.
    + intros x H. inversion H; subst x. split; [exact Hd|].
      exists before, after. split; [reflexivity|exact Hb].
    + split; [intros H; discriminate H|].
      intros H. apply Forall_app in H. destruct H as [_ H].
      inversion H as [|? ? Hx]; subst. congruence.
Qed.

(** The second of three devices is the first that is recognised. *)
Lemma find_device_first_match_witness :
  snd (find_device
         (quiet_peer [companion "AA:01" "Headphones";
                      companion "AA:02" "My NocturneCompanion";
                      companion "AA:03" "NocturneCompanion"] []))
  = Ok (Some (companion "AA:02" "My NocturneCompanion")) /\
  matches (companion "AA:02" "My NocturneCompanion") = true.
Proof.
  split; [reflexivity|].
  apply (proj1 (proj2 (find_device_first_match
                         (quiet_peer [companion "AA:01" "Headphones";
                                      companion "AA:02" "My NocturneCompanion";
                                      companion "AA:03" "NocturneCompanion"] [])
                         _ eq_refl))
               (companion "AA:02" "My NocturneCompanion")).
  reflexivity.
Defined.

Lemma recognised_devices_witness :
  name_matches (companion "AA:02" "My NocturneCompanion") = true /\
  service_matches {| dev_name := None; dev_address := cps "AA:04";
                     dev_uuids := Some [Str.lower (cps SERVICE_UUID)] |} = true.
Proof.
  split.
  - apply (proj2 (proj1 (recognised_devices
                           (companion "AA:02" "My NocturneCompanion")))).
    exists (cps "My "), []. reflexivity.
  - apply (proj2 (proj2 (recognised_devices
                           {| dev_name := None; dev_address := cps "AA:04";
                              dev_uuids := Some [Str.lower (cps SERVICE_UUID)] |}))).
    exists (Str.lower (cps SERVICE_UUID)). split; [left; reflexivity|reflexivity].
Defined.

Lemma transport_calls_app (t t' : list event) :
  transport_calls (t ++ t') = transport_calls t ++ transport_calls t'.
Proof. unfold transport_calls. apply filter_app. Qed.

Lemma fst_and_then {A B : Type} (m : act A) (k : A -> act B) :
  fst (and_then m k)
  = fst m ++ match snd m with
             | Ok a => fst (k a)
             | Raise _ => []
             end.
Proof.
  destruct m as [t [a|e]]; simpl.
  - destruct (k a); reflexivity.
  - symmetry. apply List.app_nil_r.
Qed.

Lemma snd_and_then {A B : Type} (m : act A) (k : A -> act B) :
  snd (and_then m k) = match snd m with
                       | Ok a => snd (k a)
                       | Raise e => Raise e
                       end.
Proof.
  destruct m as [t [a|e]]; simpl; [|reflexivity].
  destruct (k a); reflexivity.
Qed.

Lemma find_device_none (peer : Peer) (devices : list BLEDevice) :
  scan_answer peer = Ok devices -> Forall no_match devices ->
  find_device peer = ([Say Scanning; Discover; Say NotFound], Ok None).
Proof.
  intros Hs Hn. unfold find_device, call. rewrite Hs.
  cbn [say and_then List.app]. rewrite (first_match_none _ Hn). reflexivity.
Qed.

Lemma find_device_at (peer : Peer) (before after : list BLEDevice) (d : BLEDevice) :
  scan_answer peer = Ok (before ++ d :: after) ->
  Forall no_match before -> matches d = true ->
  find_device peer
  = ([Say Scanning; Discover;
      Say (if name_matches d then Found d else FoundByService d)], Ok (Some d)).
Proof.
  intros Hs Hb Hd. unfold find_device, call. rewrite Hs.
  cbn [say and_then List.app]. rewrite (first_match_at _ _ _ Hb Hd). reflexivity.
Qed.

Lemma list_services_quiet (l : list GattService) :
  transport_calls (fst (list_services l)) = [] /\ snd (list_services l) = Ok tt.
Proof.
  split; [|reflexivity]. unfold list_services. cbn [fst].
  induction l as [|s l IH]; [reflexivity|].
  cbn [flat_map]. rewrite transport_calls_app, IH, List.app_nil_r.
  cbn [transport_calls filter is_call].
  induction (service_characteristics s) as [|c cs IHc]; [reflexivity|exact IHc].
Qed.

Lemma connect_at (peer : Peer) (before after : list BLEDevice) (d : BLEDevice) :
  scan_answer peer = Ok (before ++ d :: after) ->
  Forall no_match before -> matches d = true ->
  transport_calls (fst (connect peer)) = [Discover; Connect (dev_address d)] /\
  (connect_answer peer (dev_address d) = Ok tt -> snd (connect peer) = Ok true) /\
  (forall e,
      connect_answer peer (dev_address d) = Raise e ->
      is_Exception e = true ->
      snd (connect peer) = Ok false /\
      In (Say (ConnectionFailed e)) (fst (connect peer))).
Proof.
  intros Hs Hb Hd. unfold connect.
  rewrite (find_device_at peer before after d Hs Hb Hd).
  cbn [and_then say List.app call].
  destruct (list_services_quiet (services peer)) as [Hq Hr].
  destruct (list_services (services peer)) as [ts rs]. cbn [fst snd] in Hq, Hr.
  subst rs.
  destruct (connect_answer peer (dev_address d)) as [[]|e] eqn:Ha.
  - cbn [guarded and_then done List.app fst snd].
    split; [|split; [reflexivity|intros e H; discriminate H]].
    cbn [transport_calls filter is_call].
    change (filter is_call (ts ++ [])) with (transport_calls (ts ++ [])).
    rewrite transport_calls_app, Hq. reflexivity.
  - cbn [guarded and_then done List.app fst snd].
    destruct (is_Exception e) eqn:He.
    + cbn [and_then say done List.app fst snd].
      split; [reflexivity|]. split; [intros H; discriminate H|].
      intros e' H _. inversion H; subst e'. split; [reflexivity|].
      simpl. tauto.
    + split; [reflexivity|]. split; [intros H; discriminate H|].
      intros e' H He'. inversion H; subst e'. congruence.
Qed.

Lemma connect_none (peer : Peer) (devices : list BLEDevice) :
  scan_answer peer = Ok devices -> Forall no_match devices ->
  connect peer = ([Say Scanning; Discover; Say NotFound], Ok false).
Proof.
  intros Hs Hn. unfold connect. rewrite (find_device_none peer devices Hs Hn).
  reflexivity.
Qed.

(** X17.  [connect] opens the link to the first recognised device of the
    scan and to no other: its calls are the scan and one connection to
    the address of that device.  It answers [True] when the connection
    succeeds, and [False], after reporting the failure, when the
    connection raises an ordinary exception. *)
Theorem connect_outcome
    (peer : Peer) (before after : list BLEDevice) (d : BLEDevice) :
  scan_answer peer = Ok (before ++ d :: after) ->
  Forall (fun x => matches x = false) before -> matches d = true ->
  transport_calls (fst (connect peer)) = [Discover; Connect (dev_address d)] /\
  (connect_answer peer (dev_address d) = Ok tt -> snd (connect peer) = Ok true) /\
  (forall e,
      connect_answer peer (dev_address d) = Raise e ->
      is_Exception e = true ->
      snd (connect peer) = Ok false /\
      In (Say (ConnectionFailed e)) (fst (connect peer))).
Proof. apply connect_at. Qed.

Lemma connect_outcome_witness :
  transport_calls
    (fst (connect (quiet_peer [companion "AA:01" "Headphones";
                               companion "AA:02" "My NocturneCompanion"] [])))
  = [Discover; Connect (cps "AA:02")] /\
  snd (connect (quiet_peer [companion "AA:01" "Headphones";
                            companion "AA:02" "My NocturneCompanion"] []))
  = Ok true.
Proof.
  destruct (connect_outcome
              (quiet_peer [companion "AA:01" "Headphones";
                           companion "AA:02" "My NocturneCompanion"] [])
              [companion "AA:01" "Headphones"] []
              (companion "AA:02" "My NocturneCompanion")
              eq_refl
              (Forall_cons _ (eq_refl : matches (companion "AA:01" "Headphones")
                                        = false) (Forall_nil _))
              eq_refl) as (Hc & Hok & _).
  split; [exact Hc|apply Hok; reflexivity].
Defined.

(** X18.  The state stream is subscribed first and the debug stream only
    after it: when the first subscription raises an ordinary exception
    the second is not attempted, and in every such case the failure is
    reported and the call returns normally. *)
Theorem subscribe_in_order (peer : Peer) :
  (notify_answer peer STATE_CHAR_UUID = Ok tt ->
   notify_answer peer DEBUG_CHAR_UUID = Ok tt ->
   subscribe_notifications peer
   = ([StartNotify STATE_CHAR_UUID STATE_CHAR_UUID; Say SubscribedState;
       StartNotify DEBUG_CHAR_UUID DEBUG_CHAR_UUID; Say SubscribedDebug],
      Ok tt)) /\
  (forall e,
      notify_answer peer STATE_CHAR_UUID = Raise e -> is_Exception e = true ->
      subscribe_notifications peer
      = ([StartNotify STATE_CHAR_UUID STATE_CHAR_UUID; Say (SubscribeFailed e)],
         Ok tt)) /\
  (forall e,
      notify_answer peer STATE_CHAR_UUID = Ok tt ->
      notify_answer peer DEBUG_CHAR_UUID = Raise e -> is_Exception e = true ->
      subscribe_notifications peer
      = ([StartNotify STATE_CHAR_UUID STATE_CHAR_UUID; Say SubscribedState;
          StartNotify DEBUG_CHAR_UUID DEBUG_CHAR_UUID; Say (SubscribeFailed e)],
         Ok tt)).
Proof.
  unfold subscribe_notifications, call. repeat split.
  - intros Hs Hd. rewrite Hs, Hd. reflexivity.
  - intros e Hs He. rewrite Hs. cbn [and_then guarded]. rewrite He. reflexivity.
  - intros e Hs Hd He. rewrite Hs, Hd. cbn [and_then guarded say List.app].
    rewrite He. reflexivity.
Qed.

(** A peer that refuses the subscriptions. *)
Lemma subscribe_in_order_witness :
  subscribe_notifications (peer_with (accepting_client []) (Raise BleakError))
  = ([StartNotify STATE_CHAR_UUID STATE_CHAR_UUID;
      Say (SubscribeFailed BleakError)], Ok tt).
Proof.
  exact (proj1 (proj2 (subscribe_in_order
                         (peer_with (accepting_client []) (Raise BleakError))))
           BleakError eq_refl eq_refl).
Defined.


Lemma subscribe_calls (peer : Peer) :
  transport_calls (fst (subscribe_notifications peer))
  = StartNotify STATE_CHAR_UUID STATE_CHAR_UUID
    :: match notify_answer peer STATE_CHAR_UUID with
       | Ok _ => [StartNotify DEBUG_CHAR_UUID DEBUG_CHAR_UUID]
       | Raise _ => []
       end.
Proof.
  unfold subscribe_notifications, call.
  destruct (notify_answer peer STATE_CHAR_UUID) as [[]|e].
  - destruct (notify_answer peer DEBUG_CHAR_UUID) as [[]|e].
    + reflexivity.
    + cbn [and_then guarded say List.app]. destruct (is_Exception e); reflexivity.
  - cbn [and_then guarded]. destruct (is_Exception e); reflexivity.
Qed.





(** X19.  Without a link there is no session.  When no device of the scan
    is recognised, or when the connection raises an ordinary exception,
    [run] returns after the attempt: it reads nothing, subscribes to
    nothing, writes nothing and does not disconnect.  A scan that raises
    is caught nowhere: [run] raises the same exception. *)
Theorem no_link_no_session (peer : Peer) (lines : list pystr) :
  (forall e, scan_answer peer = Raise e ->
             run peer lines = ([Say Scanning; Discover], Raise e)) /\
  (forall devices,
      scan_answer peer = Ok devices ->
      Forall (fun x => matches x = false) devices ->
      run peer lines = ([Say Scanning; Discover; Say NotFound], Ok NotConnected)) /\
  (forall before d after e,
      scan_answer peer = Ok (before ++ d :: after) ->
      Forall (fun x => matches x = false) before -> matches d = true ->
      connect_answer peer (dev_address d) = Raise e ->
      is_Exception e = true ->
      snd (run peer lines) = Ok NotConnected /\
      transport_calls (fst (run peer lines))
      = [Discover; Connect (dev_address d)]).
Proof.
  repeat split.
  - intros e Hs. unfold run, connect, find_device, call. rewrite Hs. reflexivity.
  - intros devices Hs Hn. unfold run. rewrite (connect_none peer devices Hs Hn).
    reflexivity.
  - destruct (connect_at peer before after d H H0 H1) as (_ & _ & Hf).
    destruct (Hf e H2 H3) as [Hr _].
    unfold run. rewrite snd_and_then, Hr. reflexivity.
  - destruct (connect_at peer before after d H H0 H1) as (Hc & _ & Hf).
    destruct (Hf e H2 H3) as [Hr _].
    unfold run. rewrite fst_and_then, Hr. cbn [negb done fst].
    rewrite List.app_nil_r. exact Hc.
Qed.

(** A scan that finds only a pair of headphones. *)
Lemma no_link_no_session_witness :
  run (quiet_peer [companion "AA:01" "Headphones"] []) [cps "play"]
  = ([Say Scanning; Discover; Say NotFound], Ok NotConnected).
Proof.
  apply (proj1 (proj2 (no_link_no_session
                         (quiet_peer [companion "AA:01" "Headphones"] [])
                         [cps "play"]))
               [companion "AA:01" "Headphones"] eq_refl).
  repeat constructor.
Defined.



(** X21.  The link is closed also when the session is cut short: if the
    body of the session ends with an exception, what it did is followed by
    the closing of the link, and the exception is raised again unless the
    disconnection raises one of its own. *)
Theorem link_closed_on_abort (peer : Peer) (lines : list pystr) (e : exn) :
  snd (connect peer) = Ok true ->
  snd (session_body peer lines) = Raise e ->
  fst (run peer lines)
  = fst (connect peer) ++ fst (session_body peer lines) ++ fst (closing peer) /\
  snd (run peer lines) = match snd (closing peer) with
                         | Ok _ => Raise e
                         | Raise e' => Raise e'
                         end.
Proof.
  intros Hc Hb. unfold run. rewrite fst_and_then, snd_and_then, Hc. cbn [negb].
  destruct (session_body peer lines) as [t r]. cbn [snd fst] in *. subst r.
  unfold ensure. destruct (closing peer) as [tc [[]|e']]; split; reflexivity.
Qed.

(** A read cut short by an interrupt. *)
Lemma link_closed_on_abort_witness :
  run (peer_with interrupted_client (Ok tt)) [cps "play"]
  = ([Say Scanning; Discover; Say (Found (companion "AA:02" "NocturneCompanion"));
      Say (Connecting (cps "AA:02")); Connect (cps "AA:02"); Say Connected;
      Say ServicesHeader; Client (ReadChar INFO_CHAR_UUID);
      Disconnect; Say Disconnected], Raise KeyboardInterrupt).
Proof.
  destruct (link_closed_on_abort (peer_with interrupted_client (Ok tt))
              [cps "play"] KeyboardInterrupt eq_refl eq_refl) as [Hf Hs].
  rewrite (surjective_pairing (run _ _)), Hf, Hs. reflexivity.
Defined.

End SessionProperties.
